(** * BearAI: the generative-media adapter and the live-audio bridge

  A shallow embedding of [geminiService] (the provider client and the
  video poll loop) and of the two live-session callbacks installed by
  [toggleLiveVoice] in [App.tsx].

  Conventions
  - a JavaScript string is its sequence of UTF-16 code units;
  - [undefined] is [None]; a value used as a condition goes through an
    explicit truthiness test;
  - an asynchronous function is a [task]: the log of the calls it made to
    its collaborators, in order, and how it settled;
  - the provider, the network and the browser are an explicit [World] of
    scripted replies. *)

From Equations Require Import Equations.
From Equations.Prop Require Import Logic.
From Stdlib Require Import List NArith ZArith QArith Qabs String Ascii Bool Lia.
Import ListNotations.
Close Scope Q_scope.

Set Implicit Arguments.
Unset Strict Implicit.

(** ** JavaScript strings *)

Module JsString.

Definition code_unit := N.
Definition t := list code_unit.

(** A source literal, one code unit per character. *)
Definition lit (s : string) : t := map N_of_ascii (list_ascii_of_string s).

(** An empty string is falsy, any other string is truthy. *)
Definition truthy (s : t) : bool :=
  match s with [] => false | _ :: _ => true end.

(** Truthiness of a possibly undefined string. *)
Definition truthy_opt (s : option t) : bool :=
  match s with None => false | Some s => truthy s end.

Fixpoint startsWith (p s : t) : bool :=
  match p, s with
  | [], _ => true
  | _ :: _, [] => false
  | a :: p', b :: s' => N.eqb a b && startsWith p' s'
  end.

(** [s.includes(p)] *)
Fixpoint includes (p s : t) : bool :=
  startsWith p s || match s with [] => false | _ :: s' => includes p s' end.

(** WhiteSpace and LineTerminator code units, the ones [trim] removes. *)
Definition is_space (c : code_unit) : bool :=
  ((9 <=? c) && (c <=? 13) || (c =? 32) || (c =? 160) || (c =? 5760)
   || (8192 <=? c) && (c <=? 8202) || (c =? 8232) || (c =? 8233)
   || (c =? 8239) || (c =? 8287) || (c =? 12288) || (c =? 65279))%N.

Fixpoint trimStart (s : t) : t :=
  match s with
  | [] => []
  | c :: s' => if is_space c then trimStart s' else s
  end.

Fixpoint trimEnd (s : t) : t :=
  match s with
  | [] => []
  | c :: s' =>
      match trimEnd s' with
      | [] => if is_space c then [] else [c]
      | r => c :: r
      end
  end.

Definition trim (s : t) : t := trimEnd (trimStart s).

(** [s.split(sep)] for a one-unit separator: the pieces between the
    separators, always at least one piece. *)
Fixpoint split (sep : code_unit) (s : t) : list t :=
  match s with
  | [] => [[]]
  | c :: s' =>
      if N.eqb c sep then [] :: split sep s'
      else match split sep s' with
           | [] => [[c]]
           | piece :: pieces => (c :: piece) :: pieces
           end
  end.

(** [String(v)] of a possibly undefined string, as a template literal
    interpolates it. *)
Definition interpolate (v : option t) : t :=
  match v with Some s => s | None => lit "undefined" end.

End JsString.

Abbreviation jsstring := JsString.t.
Abbreviation js := JsString.lit.

(** ** The fence-stripping regular expression of [editCode]

  [/```[a-z]*\n?|```/gi].  Both alternatives start with three backticks
  and the first one can always finish (its two quantifiers accept the
  empty string), so the second alternative is never reached and nothing
  is ever backtracked.  Without the [u] flag, [i] folds through
  [toUpperCase] and refuses to fold a non-ASCII unit onto an ASCII one,
  hence [[a-z]] accepts the 52 ASCII letters and nothing else. *)

Module Fence.

Definition backtick : N := 96.
Definition newline : N := 10.

Definition marker : jsstring := [backtick; backtick; backtick].

Definition is_letter (c : N) : bool :=
  ((97 <=? c) && (c <=? 122) || (65 <=? c) && (c <=? 90))%N.

(** Greedy [[a-z]*]: what is left after the letters. *)
Fixpoint skip_letters (s : jsstring) : jsstring :=
  match s with
  | c :: s' => if is_letter c then skip_letters s' else s
  | [] => []
  end.

(** Greedy [\n?]. *)
Definition skip_newline (s : jsstring) : jsstring :=
  match s with
  | c :: s' => if N.eqb c newline then s' else s
  | [] => []
  end.

(** One attempt to match at the head of [s]: the rest of the input after
    the match, when there is one. *)
Definition match_here (s : jsstring) : option jsstring :=
  match s with
  | a :: b :: c :: s' =>
      if N.eqb a backtick && N.eqb b backtick && N.eqb c backtick
      then Some (skip_newline (skip_letters s'))
      else None
  | _ => None
  end.

Lemma skip_letters_length s : (List.length (skip_letters s) <= List.length s)%nat.
Proof.
  induction s as [|c s IH]; simpl; [lia|].
  destruct (is_letter c); simpl; lia.
Qed.

Lemma skip_newline_length s : (List.length (skip_newline s) <= List.length s)%nat.
Proof.
  destruct s as [|c s]; simpl; [lia|].
  destruct (N.eqb c newline); simpl; lia.
Qed.

Lemma match_here_length s r :
  match_here s = Some r -> (List.length r < List.length s)%nat.
Proof.
  destruct s as [|a [|b [|c s']]]; simpl; try discriminate.
  destruct (_ && _); [|discriminate].
  intros [= <-].
  pose proof (skip_newline_length (skip_letters s')).
  pose proof (skip_letters_length s'). lia.
Qed.

(** [text.replace(re, '')] with the [g] flag: matches are looked for from
    left to right, each one is dropped and the scan resumes after it; a
    unit where no match starts is kept. *)
Equations strip (s : jsstring) : jsstring by wf (List.length s) lt :=
  strip s with inspect (match_here s) := {
    | exist _ (Some r) E => strip r
    | exist _ None E with s := {
        | [] => []
        | c :: s' => c :: strip s' } }.
Next Obligation. now apply match_here_length. Qed.

End Fence.

(** ** Exceptions and asynchronous tasks *)

Inductive exn : Type :=
| Error (message : jsstring)        (* [throw new Error(message)] *)
| TypeError (reading : jsstring)    (* a property read on [undefined] *)
| RangeError                        (* a typed array over a misaligned buffer *)
| DOMException (name : jsstring)    (* raised by a browser interface *)
| Failure (reason : N).             (* what a collaborator rejected with *)

(** The spec's names for the three errors the service raises itself. *)
Definition MissingCredential : exn := Error (js "GEMINI_API_KEY is not set").
Definition NoResultProduced : exn := Error (js "No image generated").
Definition GenerationFailed : exn := Error (js "Video generation failed").

(** A synchronous computation returns or throws. *)
Definition sync (A : Type) : Type := (exn + A)%type.

(** How a promise stands: [Pending] only when the run was cut short. *)
Inductive settled (A : Type) : Type :=
| Resolved (a : A)
| Rejected (e : exn)
| Pending.
Arguments Rejected {A} e.
Arguments Pending {A}.

Module Task.
Section WithEvents.
Variable E : Type.

(** The calls made, oldest first, and the state of the promise. *)
Definition t (A : Type) : Type := (list E * settled A)%type.

Definition ret {A} (a : A) : t A := ([], Resolved a).
Definition throw {A} (e : exn) : t A := ([], Rejected e).

Definition bind {A B} (m : t A) (k : A -> t B) : t B :=
  match m with
  | (log, Resolved a) => let (log', s) := k a in (log ++ log', s)
  | (log, Rejected e) => (log, Rejected e)
  | (log, Pending) => (log, Pending)
  end.

(** [await] of one call to a collaborator: the call is logged, its reply
    settles the step. *)
Definition call {A} (e : E) (reply : sync A) : t A :=
  ([e], match reply with inr a => Resolved a | inl x => Rejected x end).

(** A synchronous step inside an [async] function: a throw rejects. *)
Definition run {A} (c : sync A) : t A :=
  match c with inr a => ret a | inl x => throw x end.

Definition log {A} (m : t A) : list E := fst m.
Definition outcome {A} (m : t A) : settled A := snd m.

End WithEvents.
End Task.

Arguments Task.ret {E A} a.
Arguments Task.throw {E A} e.
Arguments Task.bind {E A B} m k.
Arguments Task.call {E A} e reply.
Arguments Task.run {E A} c.
Arguments Task.log {E A} m.
Arguments Task.outcome {E A} m.

Declare Scope task_scope.
Delimit Scope task_scope with task.
Notation "x <- m ;; k" := (Task.bind m (fun x => k))
  (at level 61, m at next level, right associativity) : task_scope.
Notation "m ;; k" := (Task.bind m (fun _ => k))
  (at level 61, right associativity) : task_scope.

(** ** What travels between the service and the provider *)

Module Blob.
Record t := { data : option jsstring; mimeType : option jsstring }.
End Blob.

Module Part.
Record t := { inlineData : option Blob.t; text : option jsstring }.
Definition of_text (s : jsstring) : t := {| inlineData := None; text := Some s |}.
End Part.

Module Content.
Record t := { parts : option (list Part.t) }.
End Content.

Module Candidate.
Record GroundingMetadata := { groundingChunks : option (list N) }.
Record t := { content : option Content.t;
              groundingMetadata : option GroundingMetadata }.
End Candidate.

(** [text] is the response's own reading of its text, absent when it has
    none. *)
Module Response.
Record t := { candidates : option (list Candidate.t); text : option jsstring }.
End Response.

Module Operation.
Record Video := { uri : option jsstring }.
Record GeneratedVideo := { video : option Video }.
Record GenerateVideosResponse := { generatedVideos : option (list GeneratedVideo) }.
Record t := { done : option bool; response : option GenerateVideosResponse }.

(** [operation.done] as a condition. *)
Definition is_done (o : t) : bool :=
  match done o with Some true => true | _ => false end.

(** [operation.response?.generatedVideos?.[0]?.video?.uri] *)
Definition downloadLink (o : t) : option jsstring :=
  match response o with
  | None => None
  | Some r =>
      match generatedVideos r with
      | None | Some [] => None
      | Some (g :: _) =>
          match video g with
          | None => None
          | Some v => uri v
          end
      end
  end.
End Operation.

Module Request.
(** An element of [contents]: a bare part or a content with its parts. *)
Inductive ContentUnion := OfPart (p : Part.t) | OfContent (c : Content.t).
Record ImageConfig := { aspectRatio : jsstring; imageSize : jsstring }.
Record Config := { temperature : option Q; imageConfig : option ImageConfig }.
Record GenerateContentParameters :=
  { model : jsstring; contents : list ContentUnion; config : option Config }.

Inductive VideoAspect := Landscape (* "16:9" *) | Portrait (* "9:16" *).
Record VideoConfig :=
  { numberOfVideos : N; resolution : jsstring; videoAspectRatio : VideoAspect }.
Record GenerateVideosParameters :=
  { videoModel : jsstring; prompt : jsstring; videoConfig : VideoConfig }.

Record ChatParameters :=
  { chatModel : jsstring; systemInstruction : jsstring; googleSearch : bool;
    message : jsstring }.

Record LiveConnectParameters :=
  { liveModel : jsstring; audioOnly : bool; voiceName : jsstring;
    liveInstruction : jsstring }.
End Request.

(** Handles to objects the browser and the provider keep for themselves. *)
Definition FetchResponse := N.
Definition BlobHandle := N.
Definition Session := N.

(** ** The log of calls *)

Inductive call : Type :=
| GenerateContent (params : Request.GenerateContentParameters)
| SendMessage (params : Request.ChatParameters)
| GenerateVideos (params : Request.GenerateVideosParameters) (reply : sync Operation.t)
| SetTimeout (ms : N)
| GetVideosOperation (operation : Operation.t) (reply : sync Operation.t)
| Fetch (url : jsstring) (x_goog_api_key : option jsstring)
| ReadBlob (r : FetchResponse)
| CreateObjectURL (b : BlobHandle)
| LiveConnect (params : Request.LiveConnectParameters).

Abbreviation task := (Task.t call).

(** ** Everything outside the adapter

    The environment variable and the replies of the provider, the network
    and the browser.  The status check is asked many times with what may be
    the same argument, so its reply also depends on how many checks came
    before. *)

Record World := {
  GEMINI_API_KEY : option jsstring;
  models_generateContent : Request.GenerateContentParameters -> sync Response.t;
  chat_sendMessage : Request.ChatParameters -> sync Response.t;
  models_generateVideos : Request.GenerateVideosParameters -> sync Operation.t;
  operations_getVideosOperation : nat -> Operation.t -> sync Operation.t;
  fetch : jsstring -> option jsstring -> sync FetchResponse;
  response_blob : FetchResponse -> sync BlobHandle;
  URL_createObjectURL : BlobHandle -> jsstring;
  live_connect : Request.LiveConnectParameters -> sync Session
}.

(** ** geminiService *)

Module geminiService.
Import Request.
Local Open Scope task_scope.
Local Open Scope list_scope.

Record GoogleGenAI := { apiKey : jsstring }.

(** [getAI]: an absent key and an empty key are both falsy. *)
Definition getAI (w : World) : sync GoogleGenAI :=
  match GEMINI_API_KEY w with
  | Some k => if JsString.truthy k then inr {| apiKey := k |}
              else inl (Error (js "GEMINI_API_KEY is not set"))
  | None => inl (Error (js "GEMINI_API_KEY is not set"))
  end.

(** *** editCode *)

Definition nl : jsstring := [Fence.newline].
Definition margin : jsstring := js "          ".

(** [filename.split('.').pop()] *)
Definition extension (filename : jsstring) : jsstring :=
  last (JsString.split 46%N filename) [].

Definition editCode_prompt (code instruction filename : jsstring) : jsstring :=
  js "You are BearAI, an expert code assistant. " ++ nl
  ++ margin ++ js "Edit the provided code based on the user's instruction." ++ nl
  ++ margin ++ js "Return ONLY the complete updated code. " ++ nl
  ++ margin ++ js "Do not include markdown code blocks or explanations." ++ nl
  ++ margin ++ nl
  ++ margin ++ js "Filename: " ++ filename ++ nl
  ++ margin ++ js "Language: " ++ extension filename ++ nl
  ++ margin ++ nl
  ++ margin ++ js "Current Code:" ++ nl
  ++ margin ++ code ++ nl
  ++ margin ++ nl
  ++ margin ++ js "Instruction: " ++ instruction.

Definition editCode_request (code instruction filename : jsstring) : GenerateContentParameters :=
  {| model := js "gemini-3.1-pro-preview";
     contents := [OfPart (Part.of_text (editCode_prompt code instruction filename))];
     config := Some {| temperature := Some (2 # 10)%Q; imageConfig := None |} |}.

(** [response.text?.replace(/```[a-z]*\n?|```/gi, '').trim() || code] *)
Definition unfenced (text : option jsstring) : option jsstring :=
  option_map (fun t => JsString.trim (Fence.strip t)) text.

Definition or_else (v : option jsstring) (fallback : jsstring) : jsstring :=
  match v with
  | Some s => if JsString.truthy s then s else fallback
  | None => fallback
  end.

Definition editCode (w : World) (code instruction filename : jsstring) : task jsstring :=
  ai <- Task.run (getAI w) ;;
  let params := editCode_request code instruction filename in
  response <- Task.call (GenerateContent params) (models_generateContent w params) ;;
  Task.ret (or_else (unfenced (Response.text response)) code).

(** *** chat *)

Record ChatAnswer := { answer_text : option jsstring; sources : list N }.

Definition chat_request (message : jsstring) : ChatParameters :=
  {| chatModel := js "gemini-3.1-pro-preview";
     systemInstruction := js "You are BearAI, a helpful technical assistant. Use Google Search to provide accurate, up-to-date information when needed.";
     googleSearch := true;
     message := message |}.

(** [response.candidates?.[0]?.groundingMetadata?.groundingChunks || []] *)
Definition grounding (r : Response.t) : list N :=
  match Response.candidates r with
  | Some (c :: _) =>
      match Candidate.groundingMetadata c with
      | Some m => match Candidate.groundingChunks m with Some l => l | None => [] end
      | None => []
      end
  | _ => []
  end.

Definition chat (w : World) (message : jsstring) : task ChatAnswer :=
  ai <- Task.run (getAI w) ;;
  let params := chat_request message in
  response <- Task.call (SendMessage params) (chat_sendMessage w params) ;;
  Task.ret {| answer_text := Response.text response; sources := grounding response |}.

(** *** generateImage *)

Definition default (v : option jsstring) (d : jsstring) : jsstring :=
  match v with Some s => s | None => d end.

Definition generateImage_request (prompt aspectRatio imageSize : jsstring) : GenerateContentParameters :=
  {| model := js "gemini-3-pro-image-preview";
     contents := [OfPart (Part.of_text prompt)];
     config := Some {| temperature := None;
                       imageConfig := Some {| aspectRatio := aspectRatio;
                                              imageSize := imageSize |} |} |}.

Definition has_inlineData (p : Part.t) : bool :=
  match Part.inlineData p with Some _ => true | None => false end.

(** [response.candidates?.[0]?.content?.parts.find(p => p.inlineData)]:
    each [?.] ends the whole chain with [undefined]; [parts] is read
    without one, so [find] is looked up on whatever [parts] holds. *)
Definition find_image_part (r : Response.t) : sync (option Part.t) :=
  match Response.candidates r with
  | None | Some [] => inr None
  | Some (c :: _) =>
      match Candidate.content c with
      | None => inr None
      | Some ct =>
          match Content.parts ct with
          | None => inl (TypeError (js "find"))
          | Some ps => inr (find has_inlineData ps)
          end
      end
  end.

Definition png_prefix : jsstring := js "data:image/png;base64,".

Definition image_result (part : option Part.t) : sync jsstring :=
  match part with
  | Some p =>
      match Part.inlineData p with
      | Some b => inr (png_prefix ++ JsString.interpolate (Blob.data b))
      | None => inl (Error (js "No image generated"))
      end
  | None => inl (Error (js "No image generated"))
  end.

Definition generateImage (w : World) (prompt : jsstring)
    (aspectRatio imageSize : option jsstring) : task jsstring :=
  ai <- Task.run (getAI w) ;;
  let params := generateImage_request prompt (default aspectRatio (js "1:1"))
                                      (default imageSize (js "1K")) in
  response <- Task.call (GenerateContent params) (models_generateContent w params) ;;
  part <- Task.run (find_image_part response) ;;
  Task.run (image_result part).

(** *** generateVideo *)

(** The default of the second parameter, ["16:9"]. *)
Definition default_aspect (aspectRatio : option VideoAspect) : VideoAspect :=
  match aspectRatio with Some a => a | None => Landscape end.

Definition generateVideo_request (prompt : jsstring) (aspectRatio : VideoAspect)
  : GenerateVideosParameters :=
  {| videoModel := js "veo-3.1-fast-generate-preview";
     prompt := prompt;
     videoConfig := {| numberOfVideos := 1; resolution := js "720p";
                       videoAspectRatio := aspectRatio |} |}.

(** [while (!operation.done) { await timeout(5000); operation = await
    getVideosOperation({operation}) }].  The source loop has no bound;
    [fuel] bounds how many rounds of it are run, [n] counts the status
    checks made so far. *)
Fixpoint poll (w : World) (fuel n : nat) (operation : Operation.t) : task Operation.t :=
  if Operation.is_done operation then Task.ret operation
  else match fuel with
       | O => ([], Pending)
       | S fuel' =>
           Task.call (SetTimeout 5000) (inr tt) ;;
           let reply := operations_getVideosOperation w n operation in
           operation' <- Task.call (GetVideosOperation operation reply) reply ;;
           poll w fuel' (S n) operation'
       end.

(** From the finished operation to the object URL. *)
Definition download (w : World) (operation : Operation.t) : task jsstring :=
  match Operation.downloadLink operation with
  | Some link =>
      if JsString.truthy link then
        response <- Task.call (Fetch link (GEMINI_API_KEY w))
                              (fetch w link (GEMINI_API_KEY w)) ;;
        blob <- Task.call (ReadBlob response) (response_blob w response) ;;
        Task.call (CreateObjectURL blob) (inr (URL_createObjectURL w blob))
      else Task.throw (Error (js "Video generation failed"))
  | None => Task.throw (Error (js "Video generation failed"))
  end.

Definition generateVideo (w : World) (fuel : nat) (prompt : jsstring)
    (aspectRatio : option VideoAspect) : task jsstring :=
  ai <- Task.run (getAI w) ;;
  let params := generateVideo_request prompt (default_aspect aspectRatio) in
  let reply := models_generateVideos w params in
  operation <- Task.call (GenerateVideos params reply) reply ;;
  operation <- poll w fuel 0 operation ;;
  download w operation.

(** *** analyzeImage *)

(** [imageBuffer.split(',')[1]] *)
Definition image_payload (imageBuffer : jsstring) : option jsstring :=
  nth_error (JsString.split 44%N imageBuffer) 1.

Definition analyzeImage_request (imageBuffer prompt : jsstring) : GenerateContentParameters :=
  {| model := js "gemini-3.1-pro-preview";
     contents :=
       [OfContent {| Content.parts := Some
          [ {| Part.inlineData := Some {| Blob.data := image_payload imageBuffer;
                                          Blob.mimeType := Some (js "image/png") |};
               Part.text := None |};
            Part.of_text prompt ] |}];
     config := None |}.

Definition analyzeImage (w : World) (imageBuffer prompt : jsstring)
  : task (option jsstring) :=
  ai <- Task.run (getAI w) ;;
  let params := analyzeImage_request imageBuffer prompt in
  response <- Task.call (GenerateContent params) (models_generateContent w params) ;;
  Task.ret (Response.text response).

(** *** connectLive

    Not an [async] function: a missing key is thrown to the caller, and
    otherwise the promise of [ai.live.connect] is handed back. *)

Definition connectLive_request : LiveConnectParameters :=
  {| liveModel := js "gemini-2.5-flash-native-audio-preview-09-2025";
     audioOnly := true;
     voiceName := js "Zephyr";
     liveInstruction := js "You are BearAI, a helpful technical assistant. You are talking to a developer. Be concise and helpful." |}.

Definition connectLive (w : World) : sync (task Session) :=
  match getAI w with
  | inl e => inl e
  | inr ai => inr (Task.call (LiveConnect connectLive_request)
                             (live_connect w connectLive_request))
  end.

End geminiService.

(** ** Reading a log *)

Module Log.

Definition is_status_check (c : call) : bool :=
  match c with GetVideosOperation _ _ => true | _ => false end.

Definition is_download (c : call) : bool :=
  match c with Fetch _ _ | ReadBlob _ | CreateObjectURL _ => true | _ => false end.

(** What the provider last said about the operation, if it said anything. *)
Definition report (c : call) : option (sync Operation.t) :=
  match c with
  | GenerateVideos _ reply | GetVideosOperation _ reply => Some reply
  | _ => None
  end.

Definition last_report (log : list call) : option (sync Operation.t) :=
  fold_left (fun acc c => match report c with Some r => Some r | None => acc end)
            log None.

Definition status_checks (log : list call) : nat :=
  List.length (filter is_status_check log).

End Log.

(** A configured key: [process.env.GEMINI_API_KEY] is a non-empty string. *)
Definition has_key (w : World) : Prop :=
  JsString.truthy_opt (GEMINI_API_KEY w) = true.

(** ** Numbers of the audio path

    The captured samples are the elements of a [Float32Array].  A binary32
    value clamped to [[-1, 1]] has a 24-bit significand and [0x7FFF] has 15
    bits, so their product fits the 53-bit significand of the binary64 it is
    computed in: the multiplication of the capture path never rounds, and a
    finite number is modelled by the rational it denotes. *)

Module Number.

Inductive t : Type :=
| NaN
| Infinity (negative : bool)
| Finite (q : Q).

Definition of_Z (z : Z) : t := Finite (inject_Z z).

Definition Math_min (a b : t) : t :=
  match a, b with
  | NaN, _ | _, NaN => NaN
  | Infinity true, _ | _, Infinity true => Infinity true
  | Infinity false, y => y
  | x, Infinity false => x
  | Finite p, Finite q => if Qle_bool p q then Finite p else Finite q
  end.

Definition Math_max (a b : t) : t :=
  match a, b with
  | NaN, _ | _, NaN => NaN
  | Infinity false, _ | _, Infinity false => Infinity false
  | Infinity true, y => y
  | x, Infinity true => x
  | Finite p, Finite q => if Qle_bool p q then Finite q else Finite p
  end.

Definition is_negative (q : Q) : bool := (Qnum q <? 0)%Z.
Definition is_zero (q : Q) : bool := (Qnum q =? 0)%Z.

Definition mul (a b : t) : t :=
  match a, b with
  | NaN, _ | _, NaN => NaN
  | Infinity s, Infinity s' => Infinity (xorb s s')
  | Infinity s, Finite q | Finite q, Infinity s =>
      if is_zero q then NaN else Infinity (xorb s (is_negative q))
  | Finite p, Finite q => Finite (p * q)%Q
  end.

(** The integer part, rounding towards zero. *)
Definition truncate (q : Q) : Z := Z.quot (Qnum q) (Zpos (Qden q)).

(** Storing a number in an [Int16Array] element: not-a-number and the
    infinities become 0, the rest is truncated and wrapped to 16 bits. *)
Definition wrap16 (z : Z) : Z :=
  let m := (z mod 65536)%Z in
  if (32768 <=? m)%Z then (m - 65536)%Z else m.

Definition ToInt16 (x : t) : Z :=
  match x with
  | Finite q => wrap16 (truncate q)
  | _ => 0%Z
  end.

End Number.

(** ** Base64, as [btoa] and [atob] do it *)

Module Base64.

Definition pad : N := 61.

Definition digit (i : N) : N :=
  (if i <? 26 then 65 + i
   else if i <? 52 then 97 + (i - 26)
   else if i <? 62 then 48 + (i - 52)
   else if i =? 62 then 43 else 47)%N.

Definition value (c : N) : option N :=
  (if (65 <=? c) && (c <=? 90) then Some (c - 65)
   else if (97 <=? c) && (c <=? 122) then Some (c - 97 + 26)
   else if (48 <=? c) && (c <=? 57) then Some (c - 48 + 52)
   else if c =? 43 then Some 62
   else if c =? 47 then Some 63
   else None)%N.

Fixpoint encode (bytes : list N) : jsstring :=
  (match bytes with
   | a :: b :: c :: rest =>
       digit (a / 4) :: digit ((a mod 4) * 16 + b / 16)
       :: digit ((b mod 16) * 4 + c / 64) :: digit (c mod 64) :: encode rest
   | [a; b] =>
       [digit (a / 4); digit ((a mod 4) * 16 + b / 16); digit ((b mod 16) * 4); pad]
   | [a] => [digit (a / 4); digit ((a mod 4) * 16); pad; pad]
   | [] => []
   end)%N.

(** [btoa]: refuses a unit above 255. *)
Definition btoa (binary : jsstring) : sync jsstring :=
  if forallb (fun c => c <=? 255)%N binary then inr (encode binary)
  else inl (DOMException (js "InvalidCharacterError")).

Definition is_ascii_whitespace (c : N) : bool :=
  ((c =? 9) || (c =? 10) || (c =? 12) || (c =? 13) || (c =? 32))%N.

(** One or two trailing [=] go when the length is a multiple of four. *)
Definition drop_padding (s : jsstring) : jsstring :=
  if (List.length s mod 4 =? 0)%nat then
    match rev s with
    | a :: b :: r =>
        if N.eqb a pad then (if N.eqb b pad then rev r else rev (b :: r)) else s
    | _ => s
    end
  else s.

Fixpoint values (s : jsstring) : option (list N) :=
  match s with
  | [] => Some []
  | c :: s' =>
      match value c, values s' with
      | Some v, Some vs => Some (v :: vs)
      | _, _ => None
      end
  end.

Fixpoint decode (vs : list N) : list N :=
  (match vs with
   | a :: b :: c :: d :: rest =>
       (a * 4 + b / 16) :: ((b mod 16) * 16 + c / 4) :: ((c mod 4) * 64 + d)
       :: decode rest
   | [a; b; c] => [a * 4 + b / 16; (b mod 16) * 16 + c / 4]
   | [a; b] => [a * 4 + b / 16]
   | _ => []
   end)%N.

(** [atob]: the forgiving decoder of the browser. *)
Definition atob (data : jsstring) : sync jsstring :=
  let s := drop_padding (filter (fun c => negb (is_ascii_whitespace c)) data) in
  if (List.length s mod 4 =? 1)%nat
  then inl (DOMException (js "InvalidCharacterError"))
  else match values s with
       | Some vs => inr (decode vs)
       | None => inl (DOMException (js "InvalidCharacterError"))
       end.

End Base64.

(** ** The live-audio bridge of [toggleLiveVoice]

    A typed array shares the bytes of its buffer in the byte order of the
    platform; the model is little-endian, as every platform a browser runs
    on is. *)

Module LiveAudio.
Local Open Scope Z_scope.

(** *** Capture: [processor.onaudioprocess] *)

(** [Math.max(-1, Math.min(1, inputData[i]))] *)
Definition clamp (x : Number.t) : Number.t :=
  Number.Math_max (Number.of_Z (-1)) (Number.Math_min (Number.of_Z 1) x).

(** [pcmData[i] = clamp(inputData[i]) * 0x7FFF] *)
Definition quantize (x : Number.t) : Z :=
  Number.ToInt16 (Number.mul (clamp x) (Number.of_Z 32767)).

(** [new Uint8Array(pcmData.buffer)] *)
Definition bytes_of_int16 (z : Z) : list N :=
  let u := z mod 65536 in [Z.to_N (u mod 256); Z.to_N (u / 256)].

Record RealtimeInput := { media_data : jsstring; media_mimeType : jsstring }.

(** What one captured buffer sends through [session.sendRealtimeInput]. *)
Definition onaudioprocess (inputData : list Number.t) : sync RealtimeInput :=
  let pcmData := map quantize inputData in
  match Base64.btoa (flat_map bytes_of_int16 pcmData) with
  | inr base64 => inr {| media_data := base64;
                         media_mimeType := js "audio/pcm;rate=16000" |}
  | inl e => inl e
  end.

(** *** Playback and transcript: [onmessage] *)

Record ServerContent := { modelTurn : option Content.t }.
Record LiveServerMessage := { serverContent : option ServerContent }.

(** [message.serverContent?.modelTurn?.parts[0]]: [parts] is indexed
    without a [?.]. *)
Definition first_part (message : LiveServerMessage) : sync (option Part.t) :=
  match serverContent message with
  | None => inr None
  | Some sc =>
      match modelTurn sc with
      | None => inr None
      | Some turn =>
          match Content.parts turn with
          | None => inl (TypeError (js "0"))
          | Some ps => inr (nth_error ps 0)
          end
      end
  end.

(** [...?.inlineData?.data] *)
Definition audio_of (part : option Part.t) : option jsstring :=
  match part with
  | Some p => match Part.inlineData p with Some b => Blob.data b | None => None end
  | None => None
  end.

(** [...?.text] *)
Definition text_of (part : option Part.t) : option jsstring :=
  match part with Some p => Part.text p | None => None end.

(** [new Int16Array(bytes.buffer)]: needs an even number of bytes. *)
Fixpoint int16_of_bytes (bytes : list N) : sync (list Z) :=
  match bytes with
  | [] => inr []
  | [_] => inl RangeError
  | lo :: hi :: rest =>
      match int16_of_bytes rest with
      | inr l => inr (Number.wrap16 (Z.of_N lo + 256 * Z.of_N hi) :: l)
      | inl e => inl e
      end
  end.

(** [pcm[i] / 0x7FFF], the exact quotient; the element of the
    [Float32Array] is this quotient rounded to binary32. *)
Definition dequantize (pcm : Z) : Q := (pcm # 32767)%Q.

(** The quotient is rounded to binary64 by the division and to binary32 by
    the store: together less than one unit in the last of 24 bits. *)
Definition rounds_to (exact stored : Q) : Prop :=
  (Qabs (stored - exact) <= Qabs exact * (1 # 8388608))%Q.

(** [audioContext.createBuffer(1, length, 16000)]: an empty buffer is
    refused. *)
Definition createBuffer (float32 : list Q) : sync (list Q) :=
  match float32 with
  | [] => inl (DOMException (js "NotSupportedError"))
  | _ => inr float32
  end.

(** The first [if] of the handler: the buffer handed to [source.start()],
    if any. *)
Definition playback (base64Audio : option jsstring) : sync (option (list Q)) :=
  match base64Audio with
  | Some data =>
      if JsString.truthy data then
        match Base64.atob data with
        | inl e => inl e
        | inr binary =>
            match int16_of_bytes binary with
            | inl e => inl e
            | inr pcm =>
                match createBuffer (map dequantize pcm) with
                | inl e => inl e
                | inr buffer => inr (Some buffer)
                end
            end
        end
      else inr None
  | None => inr None
  end.

(** What the UI holds: the running transcript, and the buffers started so
    far, oldest first. *)
Record State := { liveTranscription : jsstring; started : list (list Q) }.

(** [prev => prev + ' ' + text] *)
Definition append_text (text prev : jsstring) : jsstring :=
  (prev ++ js " " ++ text)%list.

(** The handler: the state it leaves and how its promise settles. *)
Definition onmessage (message : LiveServerMessage) (st : State) : State * settled unit :=
  match first_part message with
  | inl e => (st, Rejected e)
  | inr part =>
      match playback (audio_of part) with
      | inl e => (st, Rejected e)
      | inr buffer =>
          let st1 := {| liveTranscription := liveTranscription st;
                        started := match buffer with
                                   | Some b => (started st ++ [b])%list
                                   | None => started st
                                   end |} in
          match text_of part with
          | Some text =>
              if JsString.truthy text
              then ({| liveTranscription := append_text text (liveTranscription st1);
                       started := started st1 |}, Resolved tt)
              else (st1, Resolved tt)
          | None => (st1, Resolved tt)
          end
      end
  end.

End LiveAudio.

(** ** The component [App]: pairing, editor and chat handlers

    The state is the content of the [useState] hooks the handlers below
    read or write.  A hole of a JavaScript array and an element that is
    [undefined] are both [None]. *)

Module App.
Local Open Scope list_scope.

Record File := { name : jsstring; content : jsstring; language : jsstring }.

Definition dq : jsstring := [34%N].
Definition lf : jsstring := [10%N].

Definition INITIAL_FILES : list File :=
  [ {| name := js "main.luau"; language := js "luau";
       content := js "-- BearAI Luau Workspace" ++ lf
                  ++ js "local Player = game.Players.LocalPlayer" ++ lf ++ lf
                  ++ js "function onInit()" ++ lf
                  ++ js "    print(" ++ dq ++ js "Sistema iniciado" ++ dq ++ js ")" ++ lf
                  ++ js "end" ++ lf ++ lf ++ js "onInit()" |};
    {| name := js "server.lua"; language := js "lua";
       content := js "-- Lua Script" ++ lf
                  ++ js "local http = require(" ++ dq ++ js "socket.http" ++ dq ++ js ")"
                  ++ lf ++ lf
                  ++ js "print(" ++ dq ++ js "Servidor ativo na porta 8080" ++ dq ++ js ")" |};
    {| name := js "app.js"; language := js "javascript";
       content := js "// BearAI JavaScript Bridge" ++ lf
                  ++ js "const express = require('express');" ++ lf
                  ++ js "const app = express();" ++ lf ++ lf
                  ++ js "app.get('/', (req, res) => {" ++ lf
                  ++ js "    res.send('BearAI Connected');" ++ lf
                  ++ js "});" ++ lf ++ lf ++ js "app.listen(3000);" |} ].

Inductive Role := user | ai.
Record ChatMessage := { role : Role; message_content : jsstring }.

Record State := {
  isConnected : bool;
  showPinModal : bool;
  pin : list (option jsstring);
  files : list File;
  activeFile : option File;
  prompt : jsstring;
  isAiLoading : bool;
  aiResponse : option jsstring;
  chatMessages : list ChatMessage;
  chatInput : jsstring
}.

Definition initial : State :=
  {| isConnected := false; showPinModal := false;
     pin := repeat (Some []) 6;
     files := INITIAL_FILES; activeFile := None; prompt := [];
     isAiLoading := false; aiResponse := None;
     chatMessages := []; chatInput := [] |}.

(** The setters of the hooks. *)
Definition setIsConnected v s :=
  {| isConnected := v; showPinModal := showPinModal s; pin := pin s; files := files s;
     activeFile := activeFile s; prompt := prompt s; isAiLoading := isAiLoading s;
     aiResponse := aiResponse s; chatMessages := chatMessages s;
     chatInput := chatInput s |}.
Definition setShowPinModal v s :=
  {| isConnected := isConnected s; showPinModal := v; pin := pin s; files := files s;
     activeFile := activeFile s; prompt := prompt s; isAiLoading := isAiLoading s;
     aiResponse := aiResponse s; chatMessages := chatMessages s;
     chatInput := chatInput s |}.
Definition setPin v s :=
  {| isConnected := isConnected s; showPinModal := showPinModal s; pin := v;
     files := files s; activeFile := activeFile s; prompt := prompt s;
     isAiLoading := isAiLoading s; aiResponse := aiResponse s;
     chatMessages := chatMessages s; chatInput := chatInput s |}.
Definition setFiles v s :=
  {| isConnected := isConnected s; showPinModal := showPinModal s; pin := pin s;
     files := v; activeFile := activeFile s; prompt := prompt s;
     isAiLoading := isAiLoading s; aiResponse := aiResponse s;
     chatMessages := chatMessages s; chatInput := chatInput s |}.
Definition setActiveFile v s :=
  {| isConnected := isConnected s; showPinModal := showPinModal s; pin := pin s;
     files := files s; activeFile := v; prompt := prompt s;
     isAiLoading := isAiLoading s; aiResponse := aiResponse s;
     chatMessages := chatMessages s; chatInput := chatInput s |}.
Definition setPrompt v s :=
  {| isConnected := isConnected s; showPinModal := showPinModal s; pin := pin s;
     files := files s; activeFile := activeFile s; prompt := v;
     isAiLoading := isAiLoading s; aiResponse := aiResponse s;
     chatMessages := chatMessages s; chatInput := chatInput s |}.
Definition setIsAiLoading v s :=
  {| isConnected := isConnected s; showPinModal := showPinModal s; pin := pin s;
     files := files s; activeFile := activeFile s; prompt := prompt s;
     isAiLoading := v; aiResponse := aiResponse s;
     chatMessages := chatMessages s; chatInput := chatInput s |}.
Definition setAiResponse v s :=
  {| isConnected := isConnected s; showPinModal := showPinModal s; pin := pin s;
     files := files s; activeFile := activeFile s; prompt := prompt s;
     isAiLoading := isAiLoading s; aiResponse := v;
     chatMessages := chatMessages s; chatInput := chatInput s |}.
Definition setChatMessages (f : list ChatMessage -> list ChatMessage) s :=
  {| isConnected := isConnected s; showPinModal := showPinModal s; pin := pin s;
     files := files s; activeFile := activeFile s; prompt := prompt s;
     isAiLoading := isAiLoading s; aiResponse := aiResponse s;
     chatMessages := f (chatMessages s); chatInput := chatInput s |}.
Definition setChatInput v s :=
  {| isConnected := isConnected s; showPinModal := showPinModal s; pin := pin s;
     files := files s; activeFile := activeFile s; prompt := prompt s;
     isAiLoading := isAiLoading s; aiResponse := aiResponse s;
     chatMessages := chatMessages s; chatInput := v |}.

(** *** Pairing *)

(** [a[index] = v] on a copy of the array: past the end, the array grows
    and the slots in between are holes. *)
Fixpoint array_set (A : Type) (a : list (option A)) (index : nat) (v : A)
  : list (option A) :=
  match index, a with
  | O, [] => [Some v]
  | O, _ :: rest => Some v :: rest
  | S i, [] => None :: array_set [] i v
  | S i, x :: rest => x :: array_set rest i v
  end.

(** [a[index]] *)
Definition array_get (A : Type) (a : list (option A)) (index : nat) : option A :=
  match nth_error a index with Some x => x | None => None end.

(** [if (value.length > 1) value = value[0]] *)
Definition first_unit (value : jsstring) : jsstring :=
  match value with
  | c :: _ :: _ => [c]
  | _ => value
  end.

(** The input whose [focus()] is called, if any: [pinRefs.current] holds
    one input per element of [pin]. *)
Definition focus_target (s : State) (index : nat) : option nat :=
  if (index <? List.length (pin s))%nat then Some index else None.

Definition handlePinChange (index : nat) (value : jsstring) (s : State)
  : State * option nat :=
  let value := first_unit value in
  (setPin (array_set (pin s) index value) s,
   if JsString.truthy value && (index <? 5)%nat
   then focus_target s (index + 1) else None).

Definition Backspace : jsstring := js "Backspace".

Definition jsstring_eqb (a b : jsstring) : bool :=
  if list_eq_dec N.eq_dec a b then true else false.

Definition handlePinKeyDown (index : nat) (key : jsstring) (s : State) : option nat :=
  if jsstring_eqb key Backspace
     && negb (JsString.truthy_opt (array_get (pin s) index))
     && (0 <? index)%nat
  then focus_target s (index - 1) else None.

(** [pin.every(d => d !== '')]: a hole is skipped and [undefined] is not
    the empty string. *)
Definition every_filled (pin : list (option jsstring)) : bool :=
  forallb (fun d => match d with Some [] => false | _ => true end) pin.

(** The new state, and whether the confetti is fired. *)
Definition validatePin (s : State) : State * bool :=
  if every_filled (pin s)
  then (setShowPinModal false (setIsConnected true s), true)
  else (s, false).

(** The effect on [isConnected]: [if (isConnected && !activeFile)
    setActiveFile(files[0])]. *)
Definition onConnectedChange (s : State) : State :=
  if isConnected s && match activeFile s with None => true | Some _ => false end
  then setActiveFile (nth_error (files s) 0) s
  else s.

(** *** Editor *)

(** [{ ...f, content }] *)
Definition with_content (f : File) (newContent : jsstring) : File :=
  {| name := name f; content := newContent; language := language f |}.

(** [files.map(f => f.name === activeFile.name ? { ...f, content } : f)] *)
Definition update_named (files : list File) (active : File) (newContent : jsstring)
  : list File :=
  map (fun f => if jsstring_eqb (name f) (name active)
                then with_content f newContent else f) files.

(** [onClick={() => isConnected && setActiveFile(file)}] *)
Definition onFileClick (file : File) (s : State) : State :=
  if isConnected s then setActiveFile (Some file) s else s.

(** The [onChange] of the editor. *)
Definition onEditorChange (newContent : jsstring) (s : State) : State :=
  match activeFile s with
  | Some active =>
      setActiveFile (Some (with_content active newContent))
        (setFiles (update_named (files s) active newContent) s)
  | None => s
  end.

(** ['edit' | 'explain' | 'fix'] *)
Inductive AiAction := Edit | Explain | Fix.

Definition instruction_of (type : AiAction) (rendered : State) : jsstring :=
  match type with
  | Edit => prompt rendered
  | Explain => js "Explain this code in detail."
  | Fix => js "Find and fix any bugs or performance issues."
  end.

(** What follows the [await] in [handleAiAction].  [rendered] is the state
    of the render the handler was created in: [files], [activeFile] and
    [prompt] are read there; the setters act on the state of the moment. *)
Definition handleAiAction_resume (type : AiAction) (rendered : State) (active : File)
    (result : settled jsstring) (s : State) : State :=
  match result with
  | Resolved newCode =>
      setIsAiLoading false
        match type with
        | Edit =>
            setPrompt []
              (setActiveFile (Some (with_content active newCode))
                 (setFiles (update_named (files rendered) active newCode) s))
        | Explain => setAiResponse (Some newCode) s
        | Fix =>
            setActiveFile (Some (with_content active newCode))
              (setFiles (update_named (files rendered) active newCode) s)
        end
  | Rejected _ => setIsAiLoading false s
  | Pending => s
  end.

(** [handleAiAction] with nothing happening during the [await]: the log of
    the provider calls and the state it leaves. *)
Definition handleAiAction (w : World) (type : AiAction) (s : State)
  : list call * State :=
  match activeFile s with
  | None => ([], s)
  | Some active =>
      let run := geminiService.editCode w (content active) (instruction_of type s)
                                        (name active) in
      (Task.log run,
       handleAiAction_resume type s active (Task.outcome run)
         (setAiResponse None (setIsAiLoading true s)))
  end.

(** *** Chat *)

Definition No_response : jsstring := js "No response".

(** [response.text || 'No response'] *)
Definition answer_or_default (text : option jsstring) : jsstring :=
  match text with
  | Some t => if JsString.truthy t then t else No_response
  | None => No_response
  end.

Definition handleChatSubmit (w : World) (s : State) : list call * State :=
  if JsString.truthy (JsString.trim (chatInput s)) then
    let userMsg := chatInput s in
    let s1 := setIsAiLoading true
                (setChatInput []
                   (setChatMessages
                      (fun prev => prev ++ [{| role := user; message_content := userMsg |}])
                      s)) in
    let run := geminiService.chat w userMsg in
    (Task.log run,
     match Task.outcome run with
     | Resolved response =>
         setIsAiLoading false
           (setChatMessages
              (fun prev => prev ++ [{| role := ai;
                                       message_content :=
                                         answer_or_default
                                           (geminiService.answer_text response) |}])
              s1)
     | Rejected _ => setIsAiLoading false s1
     | Pending => s1
     end)
  else ([], s).

End App.
(** * Properties

  Everything below is proved about the definitions above. *)

(** ** Fence stripping *)

Module FenceFacts.
Import Fence.

Example strip_fenced_block :
  strip (js "```ts
let x = 1;
```") = js "let x = 1;
".
Proof. reflexivity. Qed.

(** The three equations of [strip], in the shape the proofs use. *)
Lemma strip_nil : strip [] = [].
Proof. reflexivity. Qed.

Lemma strip_match s r : match_here s = Some r -> strip s = strip r.
Proof.
  intros H. funelim (strip s); simpl in *; congruence.
Qed.

Lemma strip_keep c s : match_here (c :: s) = None -> strip (c :: s) = c :: strip s.
Proof.
  remember (c :: s) as l eqn:Hl. intros H.
  funelim (strip l); simpl in *; congruence.
Qed.

Definition starts_with_backtick (s : jsstring) : bool :=
  match s with c :: _ => N.eqb c backtick | [] => false end.

Lemma match_here_backtick s :
  starts_with_backtick s = false -> match_here s = None.
Proof.
  destruct s as [|a [|b [|c s']]]; simpl; try reflexivity.
  now intros ->.
Qed.

(** A unit that is not a backtick is never swallowed: a match starts with
    a backtick. *)
Lemma strip_head_kept s :
  starts_with_backtick s = false -> starts_with_backtick (strip s) = false.
Proof.
  destruct s as [|c s]; [reflexivity|].
  intros H. rewrite strip_keep by now apply match_here_backtick.
  exact H.
Qed.

Lemma includes_cons p c s :
  JsString.includes p (c :: s) =
  JsString.startsWith p (c :: s) || JsString.includes p s.
Proof. reflexivity. Qed.

Definition is_backtick (c : N) : bool := N.eqb c backtick.

Lemma startsWith_marker s :
  JsString.startsWith marker s =
  match s with
  | a :: b :: c :: _ => is_backtick a && is_backtick b && is_backtick c
  | _ => false
  end.
Proof.
  unfold marker, is_backtick.
  destruct s as [|a [|b [|c s]]]; cbn [JsString.startsWith];
    try reflexivity.
  - apply andb_false_r.
  - now rewrite !andb_false_r.
  - now rewrite andb_true_r, andb_assoc, (N.eqb_sym a), (N.eqb_sym b), (N.eqb_sym c).
Qed.

Lemma match_here_spec s :
  match_here s =
  if JsString.startsWith marker s
  then Some (skip_newline (skip_letters (skipn 3 s))) else None.
Proof.
  rewrite startsWith_marker.
  destruct s as [|a [|b [|c s]]]; reflexivity.
Qed.

(** The stripped text holds no run of three backticks: wherever three
    backticks stood together in the input a match started. *)
Lemma strip_no_marker s : JsString.includes marker (strip s) = false.
Proof.
  remember (List.length s) as n eqn:Hn.
  revert s Hn. induction n as [n IH] using lt_wf_ind. intros s ->.
  destruct (match_here s) as [r|] eqn:E.
  - rewrite (strip_match E).
    apply (IH _ (match_here_length E)). reflexivity.
  - destruct s as [|c s]; [reflexivity|].
    rewrite (strip_keep E), includes_cons.
    rewrite (IH (List.length s)) by (simpl; lia || reflexivity).
    rewrite orb_false_r, startsWith_marker.
    rewrite match_here_spec, startsWith_marker in E.
    fold (is_backtick c).
    destruct (is_backtick c) eqn:Hc.
    2:{ now destruct (strip s) as [|? [|? ?]]. }
    (* [c] is a backtick and no match starts here: at most one more follows *)
    destruct s as [|b s]; [reflexivity|].
    destruct (is_backtick b) eqn:Hb.
    + assert (Hs : starts_with_backtick s = false).
      { destruct s as [|d s]; [reflexivity|].
        simpl in *. fold (is_backtick d) in *.
        destruct (is_backtick d); [discriminate|reflexivity]. }
      assert (E' : match_here (b :: s) = None).
      { rewrite match_here_spec, startsWith_marker.
        destruct s as [|d [|e s]]; try reflexivity.
        simpl in Hs. fold (is_backtick d) in Hs. now rewrite Hs, andb_false_r. }
      rewrite (strip_keep E').
      pose proof (strip_head_kept Hs) as Hk.
      destruct (strip s) as [|d t]; [reflexivity|].
      simpl in Hk. fold (is_backtick d) in Hk. now rewrite Hk, andb_false_r.
    + assert (Hs : starts_with_backtick (b :: s) = false) by exact Hb.
      pose proof (strip_head_kept Hs) as Hk.
      destruct (strip (b :: s)) as [|d [|e t]]; try reflexivity.
      simpl in Hk. fold (is_backtick d) in Hk. now rewrite Hk.
Qed.

End FenceFacts.

(** ** Strings *)

Module JsStringFacts.
Import JsString.

Lemma startsWith_app p s b : startsWith p s = true -> startsWith p (s ++ b) = true.
Proof.
  revert s. induction p as [|a p IH]; intros [|c s]; simpl; try easy.
  intros [-> H]%andb_prop. now rewrite IH.
Qed.

Lemma includes_app_r p s b : includes p s = true -> includes p (s ++ b) = true.
Proof.
  induction s as [|c s IH]; simpl.
  - rewrite orb_false_r. intros H. destruct p; [|discriminate H].
    destruct b; reflexivity.
  - intros [H|H]%orb_prop.
    + change (c :: s ++ b) with ((c :: s) ++ b). now rewrite startsWith_app.
    + rewrite IH by exact H. apply orb_true_r.
Qed.

Lemma includes_app_l p a s : includes p s = true -> includes p (a ++ s) = true.
Proof.
  intros H. induction a as [|c a IH]; [exact H|].
  simpl. rewrite IH. apply orb_true_r.
Qed.

Lemma trimStart_suffix s : exists a, s = a ++ trimStart s.
Proof.
  induction s as [|c s [a IH]]; [now exists []|]. simpl.
  destruct (is_space c).
  - exists (c :: a). simpl. now rewrite <- IH.
  - now exists [].
Qed.

Lemma trimEnd_prefix s : exists b, s = trimEnd s ++ b.
Proof.
  induction s as [|c s [b IH]]; [now exists []|]. simpl.
  destruct (trimEnd s) as [|d r] eqn:E.
  - destruct (is_space c).
    + now exists (c :: s).
    + exists b. simpl. now rewrite IH at 1.
  - exists b. simpl. now rewrite IH at 1.
Qed.

(** Trimming only removes units: what [trim s] includes, [s] includes. *)
Lemma includes_trim p s : includes p (trim s) = true -> includes p s = true.
Proof.
  unfold trim. intros H.
  destruct (trimEnd_prefix (trimStart s)) as [b Hb].
  destruct (trimStart_suffix s) as [a Ha].
  rewrite Ha. apply includes_app_l. rewrite Hb. now apply includes_app_r.
Qed.

Lemma truthy_nonempty s : truthy s = true <-> s <> [].
Proof. destruct s; simpl; split; congruence. Qed.

End JsStringFacts.

(** ** The provider client *)

Module ServiceFacts.
Import geminiService.

Lemma getAI_with_key w :
  has_key w -> exists k, GEMINI_API_KEY w = Some k /\ getAI w = inr {| apiKey := k |}.
Proof.
  unfold has_key, getAI. destruct (GEMINI_API_KEY w) as [k|]; simpl; [|discriminate].
  intros ->. now exists k.
Qed.

Lemma getAI_without_key w :
  JsString.truthy_opt (GEMINI_API_KEY w) = false -> getAI w = inl MissingCredential.
Proof.
  unfold getAI. destruct (GEMINI_API_KEY w) as [k|]; simpl; [|reflexivity].
  now intros ->.
Qed.

(** With a key and a reply, [editCode] makes its one call and resolves with
    the value of its last line. *)
Lemma editCode_resolves w code instruction filename response :
  has_key w ->
  models_generateContent w (editCode_request code instruction filename) = inr response ->
  editCode w code instruction filename =
  ([GenerateContent (editCode_request code instruction filename)],
   Resolved (or_else (unfenced (Response.text response)) code)).
Proof.
  intros [k [_ Hk]]%getAI_with_key Hr. unfold editCode. rewrite Hk. simpl.
  now rewrite Hr.
Qed.

(** The unfenced text, when it is the one returned, holds no marker. *)
Lemma unfenced_no_marker t :
  JsString.includes Fence.marker (JsString.trim (Fence.strip t)) = false.
Proof.
  destruct (JsString.includes _ _) eqn:E; [|reflexivity].
  apply JsStringFacts.includes_trim in E.
  now rewrite FenceFacts.strip_no_marker in E.
Qed.

(** A world with a key whose provider answers every request with the same
    response. *)
Definition answering (r : Response.t) : World :=
  {| GEMINI_API_KEY := Some (js "key");
     models_generateContent := fun _ => inr r;
     chat_sendMessage := fun _ => inr r;
     models_generateVideos := fun _ => inl (Failure 0);
     operations_getVideosOperation := fun _ _ => inl (Failure 0);
     fetch := fun _ _ => inl (Failure 0);
     response_blob := fun _ => inl (Failure 0);
     URL_createObjectURL := fun _ => [];
     live_connect := fun _ => inl (Failure 0) |}.

Definition text_response (t : option jsstring) : Response.t :=
  {| Response.candidates := None; Response.text := t |}.

(** C1, as stated, fails: with no response text the original code comes
    back untouched, and here the original code is a fence. *)
Lemma editCode_returns_fence :
  let w := answering (text_response None) in
  let code := js "```" in
  Task.outcome (editCode w code (js "tidy") (js "a.ts")) = Resolved code
  /\ JsString.includes Fence.marker code = true.
Proof. split; reflexivity. Qed.

(** C1 (amended): [editCode] returns either the fence-stripped, trimmed
    response text, which is then non-empty and holds no code-fence marker,
    or, when that text is absent or empty, the original code argument as it
    was given. *)
Theorem editCode_unfenced_or_original w code instruction filename response :
  has_key w ->
  models_generateContent w (editCode_request code instruction filename) = inr response ->
  exists r,
    Task.outcome (editCode w code instruction filename) = Resolved r
    /\ ((exists t, Response.text response = Some t
                   /\ r = JsString.trim (Fence.strip t)
                   /\ r <> []
                   /\ JsString.includes Fence.marker r = false)
        \/ (r = code
            /\ match Response.text response with
               | Some t => JsString.trim (Fence.strip t) = []
               | None => True
               end)).
Proof.
  intros Hk Hr. rewrite (editCode_resolves Hk Hr).
  exists (or_else (unfenced (Response.text response)) code). split; [reflexivity|].
  destruct (Response.text response) as [t|]; cbn [unfenced option_map or_else];
    [|now right].
  destruct (JsString.trim (Fence.strip t)) as [|c r] eqn:E;
    cbn [or_else JsString.truthy]; [now right|].
  left. exists t. rewrite E. split; [reflexivity|]. split; [reflexivity|].
  split; [discriminate|]. rewrite <- E. apply unfenced_no_marker.
Qed.

Lemma editCode_unfenced_or_original_witness :
  exists r,
    Task.outcome (editCode (answering (text_response (Some (js "```ts
let x = 1;
```")))) (js "let x = 0;") (js "set x to 1") (js "a.ts")) = Resolved r
    /\ ((exists t, Some (js "```ts
let x = 1;
```") = Some t
                   /\ r = JsString.trim (Fence.strip t)
                   /\ r <> []
                   /\ JsString.includes Fence.marker r = false)
        \/ (r = js "let x = 0;" /\ JsString.trim (Fence.strip (js "```ts
let x = 1;
```")) = [])).
Proof.
  apply (@editCode_unfenced_or_original
           (answering (text_response (Some (js "```ts
let x = 1;
```")))) (js "let x = 0;") (js "set x to 1") (js "a.ts")
           (text_response (Some (js "```ts
let x = 1;
```")))); reflexivity.
Defined.

(** C8: when the response text is absent, empty, or empty once unfenced
    and trimmed, [editCode] returns the original code unchanged. *)
Theorem editCode_empty_response_keeps_code w code instruction filename response :
  has_key w ->
  models_generateContent w (editCode_request code instruction filename) = inr response ->
  match Response.text response with
  | Some t => t = [] \/ JsString.trim (Fence.strip t) = []
  | None => True
  end ->
  editCode w code instruction filename =
  ([GenerateContent (editCode_request code instruction filename)], Resolved code).
Proof.
  intros Hk Hr He. rewrite (editCode_resolves Hk Hr). do 2 f_equal.
  destruct (Response.text response) as [t|]; simpl; [|reflexivity].
  assert (E : JsString.trim (Fence.strip t) = []).
  { destruct He as [->|E]; [reflexivity|exact E]. }
  now rewrite E.
Qed.

Lemma editCode_empty_response_keeps_code_witness :
  editCode (answering (text_response (Some (js "```
``` ")))) (js "let x = 0;") (js "tidy") (js "a.ts") =
  ([GenerateContent (editCode_request (js "let x = 0;") (js "tidy") (js "a.ts"))],
   Resolved (js "let x = 0;")).
Proof.
  apply (@editCode_empty_response_keeps_code
           (answering (text_response (Some (js "```
``` ")))) (js "let x = 0;") (js "tidy") (js "a.ts")
           (text_response (Some (js "```
``` ")))); [reflexivity|reflexivity|right; reflexivity].
Defined.

(** C3: without a configured key every capability fails with the
    missing-credential error, and its log of calls is empty: nothing was
    asked of the provider, the network or the browser. *)
Theorem missing_credential_fails_fast w :
  JsString.truthy_opt (GEMINI_API_KEY w) = false ->
  (forall code instruction filename,
      editCode w code instruction filename = ([], Rejected MissingCredential))
  /\ (forall message, chat w message = ([], Rejected MissingCredential))
  /\ (forall prompt aspectRatio imageSize,
         generateImage w prompt aspectRatio imageSize = ([], Rejected MissingCredential))
  /\ (forall fuel prompt aspectRatio,
         generateVideo w fuel prompt aspectRatio = ([], Rejected MissingCredential))
  /\ (forall imageBuffer prompt,
         analyzeImage w imageBuffer prompt = ([], Rejected MissingCredential))
  /\ connectLive w = inl MissingCredential.
Proof.
  intros H%getAI_without_key.
  unfold editCode, chat, generateImage, generateVideo, analyzeImage, connectLive.
  rewrite H. repeat split.
Qed.

Definition keyless (key : option jsstring) : World :=
  {| GEMINI_API_KEY := key;
     models_generateContent := fun _ => inr (text_response (Some (js "ok")));
     chat_sendMessage := fun _ => inr (text_response (Some (js "ok")));
     models_generateVideos := fun _ => inl (Failure 0);
     operations_getVideosOperation := fun _ _ => inl (Failure 0);
     fetch := fun _ _ => inr 0%N;
     response_blob := fun _ => inr 0%N;
     URL_createObjectURL := fun _ => [];
     live_connect := fun _ => inr 0%N |}.

Lemma missing_credential_fails_fast_witness :
  chat (keyless None) (js "hello") = ([], Rejected MissingCredential)
  /\ connectLive (keyless (Some [])) = inl MissingCredential.
Proof.
  split.
  - apply (@missing_credential_fails_fast (keyless None)). reflexivity.
  - apply (@missing_credential_fails_fast (keyless (Some []))). reflexivity.
Defined.

End ServiceFacts.

(** ** The video poll loop *)

Module PollFacts.
Import geminiService.

Lemma poll_done w fuel n op :
  Operation.is_done op = true -> poll w fuel n op = ([], Resolved op).
Proof. intros H. destruct fuel; simpl; now rewrite H. Qed.

Lemma poll_out_of_fuel w n op :
  Operation.is_done op = false -> poll w 0 n op = ([], Pending).
Proof. intros H. simpl. now rewrite H. Qed.

Lemma poll_failed w fuel n op e :
  Operation.is_done op = false ->
  operations_getVideosOperation w n op = inl e ->
  poll w (S fuel) n op =
  ([SetTimeout 5000; GetVideosOperation op (inl e)], Rejected e).
Proof. intros H Hr. simpl. now rewrite H, Hr. Qed.

Lemma poll_again w fuel n op op' :
  Operation.is_done op = false ->
  operations_getVideosOperation w n op = inr op' ->
  poll w (S fuel) n op =
  (SetTimeout 5000 :: GetVideosOperation op (inr op') :: Task.log (poll w fuel (S n) op'),
   Task.outcome (poll w fuel (S n) op')).
Proof.
  intros H Hr. cbn [poll]. rewrite H, Hr. cbn [Task.bind Task.call].
  destruct (poll w fuel (S n) op') as [l s]. destruct s; reflexivity.
Qed.

(** [generateVideo] once the job is submitted: the loop, then the download
    if the loop came to an end. *)
Lemma generateVideo_submitted w fuel prompt aspectRatio op0 :
  has_key w ->
  models_generateVideos w (generateVideo_request prompt (default_aspect aspectRatio))
  = inr op0 ->
  generateVideo w fuel prompt aspectRatio =
  let submit := GenerateVideos (generateVideo_request prompt (default_aspect aspectRatio))
                               (inr op0) in
  match Task.outcome (poll w fuel 0 op0) with
  | Resolved op =>
      (submit :: Task.log (poll w fuel 0 op0) ++ Task.log (download w op),
       Task.outcome (download w op))
  | Rejected e => (submit :: Task.log (poll w fuel 0 op0), Rejected e)
  | Pending => (submit :: Task.log (poll w fuel 0 op0), Pending)
  end.
Proof.
  intros [k [_ Hk]]%ServiceFacts.getAI_with_key Hs.
  unfold generateVideo. rewrite Hk. cbn [Task.run Task.ret Task.bind app].
  rewrite Hs. cbn [Task.call Task.bind].
  destruct (poll w fuel 0 op0) as [l s]. destruct s as [op|e|]; cbn.
  - now destruct (download w op).
  - reflexivity.
  - reflexivity.
Qed.

Lemma download_resolves w op link response blob :
  Operation.downloadLink op = Some link ->
  JsString.truthy link = true ->
  fetch w link (GEMINI_API_KEY w) = inr response ->
  response_blob w response = inr blob ->
  download w op =
  ([Fetch link (GEMINI_API_KEY w); ReadBlob response; CreateObjectURL blob],
   Resolved (URL_createObjectURL w blob)).
Proof.
  intros Hl Ht Hf Hb. unfold download. rewrite Hl, Ht. cbn. rewrite Hf. cbn.
  now rewrite Hb.
Qed.

Lemma download_without_link w op :
  JsString.truthy_opt (Operation.downloadLink op) = false ->
  download w op = ([], Rejected GenerationFailed).
Proof.
  unfold download. destruct (Operation.downloadLink op) as [l|]; simpl; [|reflexivity].
  now intros ->.
Qed.

(** C2: the submitted operation is not done, the first two status checks
    report it not done and the third reports it done with a link.  Then
    the loop makes exactly three status checks, each one right after a
    5000 ms timer, and the call goes on to the download and resolves. *)
Theorem three_status_checks_then_resolve
    w fuel prompt aspectRatio op0 op1 op2 op3 link response blob :
  has_key w ->
  models_generateVideos w (generateVideo_request prompt (default_aspect aspectRatio))
  = inr op0 ->
  Operation.is_done op0 = false ->
  operations_getVideosOperation w 0 op0 = inr op1 -> Operation.is_done op1 = false ->
  operations_getVideosOperation w 1 op1 = inr op2 -> Operation.is_done op2 = false ->
  operations_getVideosOperation w 2 op2 = inr op3 -> Operation.is_done op3 = true ->
  Operation.downloadLink op3 = Some link -> JsString.truthy link = true ->
  fetch w link (GEMINI_API_KEY w) = inr response ->
  response_blob w response = inr blob ->
  3 <= fuel ->
  generateVideo w fuel prompt aspectRatio =
  ([GenerateVideos (generateVideo_request prompt (default_aspect aspectRatio)) (inr op0);
    SetTimeout 5000; GetVideosOperation op0 (inr op1);
    SetTimeout 5000; GetVideosOperation op1 (inr op2);
    SetTimeout 5000; GetVideosOperation op2 (inr op3);
    Fetch link (GEMINI_API_KEY w); ReadBlob response; CreateObjectURL blob],
   Resolved (URL_createObjectURL w blob))
  /\ Log.status_checks (Task.log (generateVideo w fuel prompt aspectRatio)) = 3.
Proof.
  intros Hk Hs H0 R1 H1 R2 H2 R3 H3 Hl Ht Hf Hb Hfuel.
  destruct fuel as [|[|[|fuel]]]; try lia.
  assert (Hp : poll w (S (S (S fuel))) 0 op0 =
               ([SetTimeout 5000; GetVideosOperation op0 (inr op1);
                 SetTimeout 5000; GetVideosOperation op1 (inr op2);
                 SetTimeout 5000; GetVideosOperation op2 (inr op3)], Resolved op3)).
  { rewrite (poll_again _ H0 R1), (poll_again _ H1 R2), (poll_again _ H2 R3).
    now rewrite (poll_done _ _ _ H3). }
  assert (E : generateVideo w (S (S (S fuel))) prompt aspectRatio = _)
    by exact (generateVideo_submitted (S (S (S fuel))) Hk Hs).
  rewrite Hp in E. cbn [Task.outcome Task.log fst snd] in E.
  rewrite (download_resolves Hl Ht Hf Hb) in E. cbn in E.
  rewrite E. split; reflexivity.
Qed.


(** A provider that answers the submission with [submit] and the [n]-th
    status check with the [n]-th element of [reports]; every download
    succeeds. *)
Definition scripted (submit : sync Operation.t) (reports : list (sync Operation.t))
  : World :=
  {| GEMINI_API_KEY := Some (js "key");
     models_generateContent := fun _ => inl (Failure 0);
     chat_sendMessage := fun _ => inl (Failure 0);
     models_generateVideos := fun _ => submit;
     operations_getVideosOperation := fun n _ => nth n reports (inl (Failure 1));
     fetch := fun _ _ => inr 7%N;
     response_blob := fun _ => inr 8%N;
     URL_createObjectURL := fun _ => js "blob:video";
     live_connect := fun _ => inl (Failure 0) |}.

Definition not_done : Operation.t :=
  {| Operation.done := Some false; Operation.response := None |}.

Definition done_with (link : option jsstring) : Operation.t :=
  {| Operation.done := Some true;
     Operation.response := Some {| Operation.generatedVideos :=
       Some [ {| Operation.video := Some {| Operation.uri := link |} |} ] |} |}.

Lemma three_status_checks_then_resolve_witness :
  let w := scripted (inr not_done)
                    [inr not_done; inr not_done; inr (done_with (Some (js "https://v")))] in
  Task.outcome (generateVideo w 5 (js "a bear") None) = Resolved (js "blob:video")
  /\ Log.status_checks (Task.log (generateVideo w 5 (js "a bear") None)) = 3.
Proof.
  pose (w := scripted (inr not_done)
               [inr not_done; inr not_done; inr (done_with (Some (js "https://v")))]).
  destruct (@three_status_checks_then_resolve w 5 (js "a bear") None
              not_done not_done not_done (done_with (Some (js "https://v")))
              (js "https://v") 7%N 8%N) as [E C];
    try reflexivity; [lia|].
  split; [|exact C]. fold w. rewrite E. reflexivity.
Defined.

(** *** Any number of rounds *)

(** The log of [n] rounds of the loop, the first one being status check
    number [k], when the operation goes through [ops k], [ops (k+1)], ... *)
Definition rounds (ops : nat -> Operation.t) (k n : nat) : list call :=
  flat_map (fun i => [SetTimeout 5000; GetVideosOperation (ops i) (inr (ops (S i)))])
           (seq k n).

Lemma poll_rounds w ops n : forall fuel k,
  (forall i, i < n ->
     Operation.is_done (ops (k + i)) = false
     /\ operations_getVideosOperation w (k + i) (ops (k + i)) = inr (ops (S (k + i)))) ->
  Operation.is_done (ops (k + n)) = true ->
  n <= fuel ->
  poll w fuel k (ops k) = (rounds ops k n, Resolved (ops (k + n))).
Proof.
  induction n as [|n IH]; intros fuel k Hi Hd Hf.
  - rewrite Nat.add_0_r in Hd. rewrite (poll_done _ _ _ Hd).
    now rewrite Nat.add_0_r.
  - destruct fuel as [|fuel]; [lia|].
    destruct (Hi 0) as [H0 R0]; [lia|]. rewrite Nat.add_0_r in H0, R0.
    rewrite (poll_again _ H0 R0).
    rewrite (IH fuel (S k)).
    + cbn [Task.log Task.outcome fst snd]. unfold rounds. cbn [seq flat_map app].
      now rewrite Nat.add_succ_r.
    + intros i Hlt. specialize (Hi (S i)). rewrite Nat.add_succ_r in Hi.
      apply Hi. lia.
    + now rewrite Nat.add_succ_r in Hd.
    + lia.
Qed.

Lemma rounds_no_download ops k n :
  forallb (fun c => negb (Log.is_download c)) (rounds ops k n) = true.
Proof.
  unfold rounds. induction (seq k n) as [|i l IH]; [reflexivity|exact IH].
Qed.

(** C4: after any number [n] of status checks that report the operation
    not done, one reports it done while [downloadLink] finds no link (or an
    empty one).  Then [generateVideo] rejects with the generation-failed
    error; its log ends with the last status check, and holds no [fetch],
    no [blob()] and no [createObjectURL]. *)
Theorem done_without_link_fails w fuel prompt aspectRatio ops n :
  has_key w ->
  models_generateVideos w (generateVideo_request prompt (default_aspect aspectRatio))
  = inr (ops 0) ->
  (forall i, i < n ->
     Operation.is_done (ops i) = false
     /\ operations_getVideosOperation w i (ops i) = inr (ops (S i))) ->
  Operation.is_done (ops n) = true ->
  JsString.truthy_opt (Operation.downloadLink (ops n)) = false ->
  n <= fuel ->
  generateVideo w fuel prompt aspectRatio =
  (GenerateVideos (generateVideo_request prompt (default_aspect aspectRatio))
                  (inr (ops 0)) :: rounds ops 0 n,
   Rejected GenerationFailed)
  /\ forallb (fun c => negb (Log.is_download c))
             (Task.log (generateVideo w fuel prompt aspectRatio)) = true.
Proof.
  intros Hk Hs Hi Hd Hl Hf.
  assert (E : generateVideo w fuel prompt aspectRatio = _)
    by exact (generateVideo_submitted fuel Hk Hs).
  rewrite (@poll_rounds w ops n fuel 0) in E by assumption.
  cbn [Task.outcome Task.log fst snd Nat.add] in E.
  rewrite (download_without_link w Hl) in E.
  cbn [Task.outcome Task.log fst snd] in E. rewrite app_nil_r in E.
  rewrite E. split; [reflexivity|].
  cbn [Task.log fst forallb Log.is_download negb andb]. apply rounds_no_download.
Qed.

Lemma done_without_link_fails_witness :
  let w := scripted (inr not_done) [inr not_done; inr (done_with None)] in
  Task.outcome (generateVideo w 4 (js "a bear") None) = Rejected GenerationFailed
  /\ forallb (fun c => negb (Log.is_download c))
             (Task.log (generateVideo w 4 (js "a bear") None)) = true.
Proof.
  pose (w := scripted (inr not_done) [inr not_done; inr (done_with None)]).
  destruct (@done_without_link_fails w 4 (js "a bear") None
              (fun i => match i with 2 => done_with None | _ => not_done end) 2)
    as [E C]; try reflexivity.
  - intros [|[|i]] Hi; try lia; split; reflexivity.
  - lia.
  - split; [|exact C]. fold w. rewrite E. reflexivity.
Defined.

End PollFacts.

(** *** One status check at a time *)

Module PollInvariant.
Import geminiService PollFacts.

Definition note (acc : option (sync Operation.t)) (c : call) :=
  match Log.report c with Some r => Some r | None => acc end.

(** The log from the loop on: its own calls, then those of what follows it
    when it comes to an end. *)
Definition after_poll (p : task Operation.t) (next : Operation.t -> list call)
  : list call :=
  Task.log p ++ match Task.outcome p with Resolved op => next op | _ => [] end.

Lemma no_status_check_inside l pre o r post :
  forallb (fun c => negb (Log.is_status_check c)) l = true ->
  l <> pre ++ GetVideosOperation o r :: post.
Proof.
  intros H ->. rewrite forallb_app in H. apply andb_prop in H as [_ H].
  discriminate H.
Qed.

Lemma download_no_status_check w op :
  forallb (fun c => negb (Log.is_status_check c)) (Task.log (download w op)) = true.
Proof.
  unfold download. destruct (Operation.downloadLink op) as [l|]; [|reflexivity].
  destruct (JsString.truthy l); [|reflexivity].
  cbn. destruct (fetch w l (GEMINI_API_KEY w)) as [e|r]; [reflexivity|].
  cbn. destruct (response_blob w r) as [e|b]; reflexivity.
Qed.

(** What holds of each status check in the log of the loop, whatever the
    provider replies and however long the loop is run. *)
Lemma poll_status_check w next :
  (forall op, forallb (fun c => negb (Log.is_status_check c)) (next op) = true) ->
  forall fuel n op0 pre o r post,
    after_poll (poll w fuel n op0) next = pre ++ GetVideosOperation o r :: post ->
    Operation.is_done o = false
    /\ fold_left note pre (Some (inr op0)) = Some (inr o)
    /\ (forall o', r = inr o' -> Operation.is_done o' = true ->
          forallb (fun c => negb (Log.is_status_check c)) post = true)
    /\ (forall e, r = inl e -> post = []).
Proof.
  intros Hnext. induction fuel as [|fuel IH]; intros n op0 pre o r post E;
    destruct (Operation.is_done op0) eqn:D.
  - rewrite (poll_done _ _ _ D) in E.
    now apply (no_status_check_inside (Hnext op0)) in E.
  - rewrite (poll_out_of_fuel _ _ D) in E. now destruct pre.
  - rewrite (poll_done _ _ _ D) in E.
    now apply (no_status_check_inside (Hnext op0)) in E.
  - destruct (operations_getVideosOperation w n op0) as [e|op'] eqn:R.
    + rewrite (poll_failed _ D R) in E. unfold after_poll in E. cbn in E.
      destruct pre as [|c1 [|c2 pre]]; try discriminate E.
      * injection E as <- <- <- <-. repeat split; try easy.
      * injection E as _ _ E. now destruct pre.
    + rewrite (poll_again _ D R) in E. unfold after_poll in E.
      cbn [Task.log Task.outcome fst snd app] in E.
      fold (after_poll (poll w fuel (S n) op') next) in E.
      destruct pre as [|c1 [|c2 pre]]; try discriminate E.
      * injection E as <- <- <- E. repeat split; try easy.
        intros o' [= <-] Hd. rewrite <- E, (poll_done _ _ _ Hd).
        apply Hnext.
      * injection E as <- <- E. apply IH in E. exact E.
Qed.

(** C7: take any status check in the log of [generateVideo], for any
    provider and any length of run.  The operation it asks about is not
    done, and is what the provider last reported.  If the check reports the
    operation done, no status check follows it; if it fails, nothing at
    all follows it. *)
Theorem polled_only_while_not_done w fuel prompt aspectRatio pre o r post :
  Task.log (generateVideo w fuel prompt aspectRatio)
  = pre ++ GetVideosOperation o r :: post ->
  Operation.is_done o = false
  /\ Log.last_report pre = Some (inr o)
  /\ (forall o', r = inr o' -> Operation.is_done o' = true ->
        forallb (fun c => negb (Log.is_status_check c)) post = true)
  /\ (forall e, r = inl e -> post = []).
Proof.
  intros E.
  destruct (JsString.truthy_opt (GEMINI_API_KEY w)) eqn:K.
  2:{ apply ServiceFacts.getAI_without_key in K. unfold generateVideo in E.
      rewrite K in E. now destruct pre. }
  destruct (models_generateVideos w
              (generateVideo_request prompt (default_aspect aspectRatio)))
    as [e|op0] eqn:S.
  - exfalso. revert E. unfold generateVideo.
    destruct (ServiceFacts.getAI_with_key K) as [k [_ ->]]. cbn. rewrite S. cbn.
    destruct pre as [|c1 [|c2 pre]]; discriminate.
  - assert (L : Task.log (generateVideo w fuel prompt aspectRatio) =
                GenerateVideos (generateVideo_request prompt (default_aspect aspectRatio))
                               (inr op0)
                :: after_poll (poll w fuel 0 op0) (fun op => Task.log (download w op))).
    { rewrite (generateVideo_submitted fuel K S). unfold after_poll.
      destruct (Task.outcome (poll w fuel 0 op0)); cbn; now rewrite ?app_nil_r. }
    rewrite L in E. destruct pre as [|c pre]; [discriminate E|].
    injection E as <- E.
    apply (poll_status_check (download_no_status_check w)) in E. exact E.
Qed.

Lemma polled_only_while_not_done_witness :
  let w := scripted (inr not_done)
                    [inr not_done; inr (done_with (Some (js "https://v")))] in
  let pre := [GenerateVideos (generateVideo_request (js "a bear") Request.Landscape)
                             (inr not_done);
              SetTimeout 5000; GetVideosOperation not_done (inr not_done);
              SetTimeout 5000] in
  let r : sync Operation.t := inr (done_with (Some (js "https://v"))) in
  let post := [Fetch (js "https://v") (Some (js "key")); ReadBlob 7%N;
               CreateObjectURL 8%N] in
  Operation.is_done not_done = false
  /\ Log.last_report pre = Some (inr not_done)
  /\ (forall o', r = inr o' -> Operation.is_done o' = true ->
        forallb (fun c => negb (Log.is_status_check c)) post = true)
  /\ (forall e, r = inl e -> post = []).
Proof.
  intros w pre r post.
  apply (@polled_only_while_not_done w 3 (js "a bear") None pre not_done r post).
  reflexivity.
Defined.

End PollInvariant.

(** ** Images *)

Module ImageFacts.
Import geminiService ServiceFacts.

Lemma generateImage_replied w prompt aspectRatio imageSize response :
  has_key w ->
  models_generateContent w
    (generateImage_request prompt (default aspectRatio (js "1:1"))
                           (default imageSize (js "1K"))) = inr response ->
  generateImage w prompt aspectRatio imageSize =
  ([GenerateContent (generateImage_request prompt (default aspectRatio (js "1:1"))
                                           (default imageSize (js "1K")))],
   match find_image_part response with
   | inr part => match image_result part with
                 | inr uri => Resolved uri
                 | inl e => Rejected e
                 end
   | inl e => Rejected e
   end).
Proof.
  intros [k [_ Hk]]%getAI_with_key Hr. unfold generateImage. rewrite Hk.
  cbn [Task.run Task.ret Task.bind Task.call app]. rewrite Hr.
  destruct (find_image_part response) as [e|part]; [reflexivity|].
  cbn [Task.run Task.ret Task.bind Task.throw app].
  destruct (image_result part); reflexivity.
Qed.

(** The first part with inline data in the first candidate is the one
    returned: the prefix, then its payload as it came. *)
Lemma generateImage_data_uri w prompt aspectRatio imageSize response part blob payload :
  has_key w ->
  models_generateContent w
    (generateImage_request prompt (default aspectRatio (js "1:1"))
                           (default imageSize (js "1K"))) = inr response ->
  find_image_part response = inr (Some part) ->
  Part.inlineData part = Some blob ->
  Blob.data blob = Some payload ->
  Task.outcome (generateImage w prompt aspectRatio imageSize)
  = Resolved (png_prefix ++ payload).
Proof.
  intros Hk Hr Hp Hb Hd. rewrite (generateImage_replied Hk Hr), Hp.
  unfold image_result. now rewrite Hb, Hd.
Qed.

(** When the search comes back empty the call fails with the
    no-image error. *)
Lemma generateImage_no_part w prompt aspectRatio imageSize response :
  has_key w ->
  models_generateContent w
    (generateImage_request prompt (default aspectRatio (js "1:1"))
                           (default imageSize (js "1K"))) = inr response ->
  find_image_part response = inr None ->
  Task.outcome (generateImage w prompt aspectRatio imageSize)
  = Rejected NoResultProduced.
Proof.
  intros Hk Hr Hp. now rewrite (generateImage_replied Hk Hr), Hp.
Qed.

(** A candidate whose content has no [parts] array. *)
Definition content_without_parts : Response.t :=
  {| Response.candidates :=
       Some [ {| Candidate.content := Some {| Content.parts := None |};
                 Candidate.groundingMetadata := None |} ];
     Response.text := None |}.

(** C5, where the code departs from it: the response holds no image part,
    and the call fails, but with the type error of reading [find] on
    [undefined], not with the no-image error. *)
Lemma generateImage_content_without_parts :
  generateImage (answering content_without_parts) (js "a red circle")
                (Some (js "1:1")) (Some (js "1K"))
  = ([GenerateContent (generateImage_request (js "a red circle") (js "1:1") (js "1K"))],
     Rejected (TypeError (js "find")))
  /\ TypeError (js "find") <> NoResultProduced.
Proof. split; [reflexivity|discriminate]. Qed.

(** *** The payload of [analyzeImage] *)

(** What stands before the first separator, and what stands after it. *)
Fixpoint before_first (sep : N) (s : jsstring) : jsstring :=
  match s with
  | [] => []
  | c :: s' => if N.eqb c sep then [] else c :: before_first sep s'
  end.

Fixpoint after_first (sep : N) (s : jsstring) : option jsstring :=
  match s with
  | [] => None
  | c :: s' => if N.eqb c sep then Some s' else after_first sep s'
  end.

Definition comma : N := 44.

Lemma split_pieces sep s :
  JsString.split sep s =
  before_first sep s
  :: match after_first sep s with Some r => JsString.split sep r | None => [] end.
Proof.
  induction s as [|c s IH]; [reflexivity|]. simpl.
  destruct (N.eqb c sep); [reflexivity|]. now rewrite IH.
Qed.

Lemma after_first_none sep s :
  ~ In sep s -> after_first sep s = None.
Proof.
  induction s as [|c s IH]; [reflexivity|]. simpl. intros H.
  destruct (N.eqb_spec c sep) as [->|_]; [tauto|]. apply IH. tauto.
Qed.

Lemma before_first_all sep s : ~ In sep s -> before_first sep s = s.
Proof.
  induction s as [|c s IH]; [reflexivity|]. simpl. intros H.
  destruct (N.eqb_spec c sep) as [->|_]; [tauto|]. f_equal. apply IH. tauto.
Qed.

Lemma image_payload_pieces imageBuffer :
  image_payload imageBuffer
  = option_map (before_first comma) (after_first comma imageBuffer).
Proof.
  unfold image_payload. rewrite split_pieces. fold comma.
  destruct (after_first comma imageBuffer) as [r|]; [|reflexivity].
  now rewrite split_pieces.
Qed.

Lemma after_first_app header payload :
  ~ In comma header -> after_first comma (header ++ comma :: payload) = Some payload.
Proof.
  induction header as [|c header IH]; intros H.
  - reflexivity.
  - cbn [app after_first]. destruct (N.eqb_spec c comma) as [->|_].
    + exfalso. apply H. now left.
    + apply IH. intros Hin. apply H. now right.
Qed.

(** The request of [analyzeImage] as the provider receives it, written
    out field by field for a given image payload: one content of two parts,
    the image as PNG and the prompt. *)
Definition image_question (payload : option jsstring) (prompt : jsstring)
  : Request.GenerateContentParameters :=
  {| Request.model := js "gemini-3.1-pro-preview";
     Request.contents :=
       [Request.OfContent
          {| Content.parts := Some
               [ {| Part.inlineData :=
                      Some {| Blob.data := payload;
                              Blob.mimeType := Some (js "image/png") |};
                    Part.text := None |};
                 {| Part.inlineData := None; Part.text := Some prompt |} ] |}];
     Request.config := None |}.

Lemma analyzeImage_sends w imageBuffer prompt :
  has_key w ->
  analyzeImage w imageBuffer prompt
  = ([GenerateContent
        (image_question (option_map (before_first comma)
                                    (after_first comma imageBuffer)) prompt)],
     match models_generateContent w
             (image_question (option_map (before_first comma)
                                         (after_first comma imageBuffer)) prompt) with
     | inr response => Resolved (Response.text response)
     | inl e => Rejected e
     end).
Proof.
  intros [k [_ Hk]]%getAI_with_key. unfold analyzeImage. rewrite Hk.
  cbn [Task.run Task.ret Task.bind Task.call app].
  assert (E : analyzeImage_request imageBuffer prompt
              = image_question (option_map (before_first comma)
                                           (after_first comma imageBuffer)) prompt).
  { unfold analyzeImage_request, image_question.
    now rewrite image_payload_pieces. }
  rewrite E.
  destruct (models_generateContent w _); reflexivity.
Qed.

(** C10, as stated, fails: for an input with two commas the request that
    [analyzeImage] sends carries the piece between them as image payload,
    not everything after the first comma. *)
Lemma payload_sent_is_not_the_whole_rest :
  Task.log (analyzeImage (answering (text_response (Some (js "a bear"))))
                         (js "a,b,c") (js "what is this?"))
  = [GenerateContent (image_question (Some (js "b")) (js "what is this?"))]
  /\ after_first comma (js "a,b,c") = Some (js "b,c")
  /\ image_question (Some (js "b")) (js "what is this?")
     <> image_question (after_first comma (js "a,b,c")) (js "what is this?").
Proof. repeat split; discriminate. Qed.

(** C10 (amended): with a key configured, [analyzeImage] sends one
    request, whose image payload is what stands between the first comma of
    the input and the next one: everything after the first comma when there
    is no second one.  For an input without a comma the payload of the
    request is absent and the request is sent all the same: the outcome is
    the provider's reply, not a validation error. *)
Theorem analyzeImage_payload w imageBuffer prompt :
  has_key w ->
  (Task.log (analyzeImage w imageBuffer prompt)
   = [GenerateContent
        (image_question (option_map (before_first comma)
                                    (after_first comma imageBuffer)) prompt)])
  /\ (forall header payload,
        imageBuffer = header ++ comma :: payload ->
        ~ In comma header -> ~ In comma payload ->
        Task.log (analyzeImage w imageBuffer prompt)
        = [GenerateContent (image_question (Some payload) prompt)])
  /\ (~ In comma imageBuffer ->
      analyzeImage w imageBuffer prompt
      = ([GenerateContent (image_question None prompt)],
         match models_generateContent w (image_question None prompt) with
         | inr response => Resolved (Response.text response)
         | inl e => Rejected e
         end)).
Proof.
  intros Hk. rewrite (analyzeImage_sends imageBuffer prompt Hk). cbn [Task.log fst].
  split; [reflexivity|]. split.
  - intros header payload -> Hh Hp.
    rewrite (after_first_app payload Hh). cbn [option_map].
    now rewrite (before_first_all Hp).
  - intros Hn. now rewrite (after_first_none Hn).
Qed.

Lemma analyzeImage_payload_witness :
  Task.log (analyzeImage (answering (text_response (Some (js "a bear"))))
                         (js "data:image/png;base64,iVBORw0KGgo=")
                         (js "what is this?"))
  = [GenerateContent (image_question (Some (js "iVBORw0KGgo=")) (js "what is this?"))]
  /\ analyzeImage (answering (text_response (Some (js "a bear"))))
                  (js "iVBORw0KGgo=") (js "what is this?")
     = ([GenerateContent (image_question None (js "what is this?"))],
        Resolved (Some (js "a bear"))).
Proof.
  split.
  - apply (proj1 (proj2 (@analyzeImage_payload
                           (answering (text_response (Some (js "a bear"))))
                           (js "data:image/png;base64,iVBORw0KGgo=")
                           (js "what is this?") eq_refl))
                 (js "data:image/png;base64") (js "iVBORw0KGgo=")).
    + reflexivity.
    + vm_compute. intuition discriminate.
    + vm_compute. intuition discriminate.
  - apply (proj2 (proj2 (@analyzeImage_payload
                           (answering (text_response (Some (js "a bear"))))
                           (js "iVBORw0KGgo=") (js "what is this?") eq_refl))).
    vm_compute. intuition discriminate.
Defined.

End ImageFacts.

(** ** The live-audio bridge *)

Module AudioFacts.
Import Number LiveAudio.
Local Open Scope Z_scope.

Lemma wrap16_small z : -32768 <= z <= 32767 -> wrap16 z = z.
Proof.
  intros H. unfold wrap16.
  destruct (Z_lt_ge_dec z 0) as [Hn|Hp].
  - replace (z mod 65536) with (z + 65536)
      by (apply Z.mod_unique with (-1); lia).
    destruct (Z.leb_spec 32768 (z + 65536)); lia.
  - rewrite Z.mod_small by lia.
    destruct (Z.leb_spec 32768 z); lia.
Qed.

(** Truncating a fraction of [[-1, 1]] scaled by [k] stays within
    [[-k, k]]. *)
Lemma truncate_scaled n d k :
  0 < d -> 0 <= k -> - d <= n <= d -> - k <= Z.quot (n * k) (d * 1) <= k.
Proof.
  intros Hd Hk Hn. rewrite Z.mul_1_r.
  pose proof (Z.quot_rem' (n * k) d) as E.
  pose proof (Z.rem_bound_abs (n * k) d ltac:(lia)) as B.
  destruct (Z_le_gt_dec 0 (n * k)) as [P|P].
  - pose proof (Z.rem_nonneg (n * k) d ltac:(lia) P). nia.
  - pose proof (Z.rem_nonpos (n * k) d ltac:(lia) ltac:(lia)). nia.
Qed.

(** The clamp: a finite sample ends in [[-1, 1]], the infinities end on the
    bounds, and only not-a-number stays what it is. *)
Lemma clamp_range x :
  match clamp x with
  | Finite q => (-1 <= q <= 1)%Q
  | NaN => x = NaN
  | Infinity _ => False
  end.
Proof.
  destruct x as [|[|]|q].
  - reflexivity.
  - cbn. split; discriminate.
  - cbn. split; discriminate.
  - unfold clamp, of_Z. cbn [Math_min].
    destruct (Qle_bool (inject_Z 1) q) eqn:A; cbn [Math_max].
    + cbn. split; discriminate.
    + destruct (Qle_bool (inject_Z (-1)) q) eqn:B.
      * apply Qle_bool_iff in B. split; [exact B|].
        apply Qnot_lt_le. intros C. apply Qlt_le_weak, Qle_bool_iff in C.
        change (Qle_bool (inject_Z 1) q = true) in C. congruence.
      * cbn. split; discriminate.
Qed.

Lemma quantize_range x : -32767 <= quantize x <= 32767.
Proof.
  unfold quantize. pose proof (clamp_range x) as C.
  destruct (clamp x) as [| |q]; cbn [mul of_Z ToInt16]; [lia|easy|].
  destruct C as [Lo Hi]. unfold Qle in Lo, Hi. cbn in Lo, Hi.
  assert (T : -32767 <= truncate (q * inject_Z 32767) <= 32767).
  { unfold truncate. cbn [Qmult Qnum Qden inject_Z].
    rewrite Pos2Z.inj_mul.
    apply (@truncate_scaled (Qnum q) (Z.pos (Qden q)) 32767); lia. }
  rewrite wrap16_small; lia.
Qed.

(** *** The transcript *)

(** A message whose first part carries both an audio payload and text. *)
Definition audio_and_text (data text : jsstring) : LiveServerMessage :=
  {| serverContent := Some {| modelTurn := Some {| Content.parts := Some
       [ {| Part.inlineData := Some {| Blob.data := Some data;
                                       Blob.mimeType := Some (js "audio/pcm") |};
            Part.text := Some text |} ] |} |} |}.

Definition text_only (text : jsstring) : LiveServerMessage :=
  {| serverContent := Some {| modelTurn := Some {| Content.parts := Some
       [ {| Part.inlineData := None; Part.text := Some text |} ] |} |} |}.

(** C9, as stated, fails: the audio of the message is handled first, and
    when that throws (here the payload decodes to a single byte, which no
    [Int16Array] can sit on) the text of the same message is never
    appended. *)
Lemma text_lost_after_audio_error :
  let st := {| liveTranscription := js "hello"; started := [] |} in
  let message := audio_and_text (js "QQ==") (js "bear") in
  (exists part, first_part message = inr part /\ text_of part = Some (js "bear"))
  /\ onmessage message st = (st, Rejected RangeError)
  /\ liveTranscription (fst (onmessage message st))
     <> append_text (js "bear") (liveTranscription st).
Proof.
  split; [eexists; split; reflexivity|].
  split; [reflexivity|discriminate].
Qed.

(** C9 (amended): whatever the message, the transcript before it is a
    prefix of the transcript after it.  When the first part of the message
    carries a non-empty text and the audio branch did not throw, the
    handler appends exactly one space and that text. *)
Theorem transcript_grows message st :
  (exists suffix,
      liveTranscription (fst (onmessage message st))
      = (liveTranscription st ++ suffix)%list)
  /\ (forall part text buffer,
        first_part message = inr part ->
        text_of part = Some text ->
        text <> [] ->
        playback (audio_of part) = inr buffer ->
        liveTranscription (fst (onmessage message st))
        = (liveTranscription st ++ js " " ++ text)%list
        /\ snd (onmessage message st) = Resolved tt).
Proof.
  unfold onmessage. split.
  - destruct (first_part message) as [e|part]; [exists []; now rewrite app_nil_r|].
    destruct (playback (audio_of part)) as [e|buffer]; [exists []; now rewrite app_nil_r|].
    destruct (text_of part) as [text|]; [|exists []; now rewrite app_nil_r].
    destruct (JsString.truthy text); [|exists []; now rewrite app_nil_r].
    now exists (js " " ++ text)%list.
  - intros part text buffer -> Ht Hne ->. rewrite Ht.
    apply JsStringFacts.truthy_nonempty in Hne. rewrite Hne. now split.
Qed.

Lemma transcript_grows_witness :
  liveTranscription
    (fst (onmessage (text_only (js "bear"))
                    {| liveTranscription := js "hello"; started := [] |}))
  = js "hello bear".
Proof.
  destruct (transcript_grows (text_only (js "bear"))
              {| liveTranscription := js "hello"; started := [] |}) as [_ H].
  apply (H (Some {| Part.inlineData := None; Part.text := Some (js "bear") |})
           (js "bear") None); [reflexivity|reflexivity|discriminate|reflexivity].
Defined.

End AudioFacts.

(** * Further properties of the provider client *)

Module ServiceMore.
Import geminiService ServiceFacts.

(** ** Failing fast *)

(** X1: A rejection of the first provider call is the rejection of the
    capability: one call in the log, the provider's own error as outcome.
    [editCode] has no fallback here: the original code comes back only for
    an empty reply, not for a failed one. *)
Theorem provider_rejection_propagates w e :
  has_key w ->
  (forall code instruction filename,
      models_generateContent w (editCode_request code instruction filename) = inl e ->
      editCode w code instruction filename
      = ([GenerateContent (editCode_request code instruction filename)], Rejected e))
  /\ (forall message,
         chat_sendMessage w (chat_request message) = inl e ->
         chat w message = ([SendMessage (chat_request message)], Rejected e))
  /\ (forall prompt aspectRatio imageSize,
         models_generateContent w
           (generateImage_request prompt (default aspectRatio (js "1:1"))
                                  (default imageSize (js "1K"))) = inl e ->
         generateImage w prompt aspectRatio imageSize
         = ([GenerateContent
               (generateImage_request prompt (default aspectRatio (js "1:1"))
                                      (default imageSize (js "1K")))],
            Rejected e))
  /\ (forall imageBuffer prompt,
         models_generateContent w (analyzeImage_request imageBuffer prompt) = inl e ->
         analyzeImage w imageBuffer prompt
         = ([GenerateContent (analyzeImage_request imageBuffer prompt)], Rejected e))
  /\ (forall fuel prompt aspectRatio,
         models_generateVideos w
           (generateVideo_request prompt (default_aspect aspectRatio)) = inl e ->
         generateVideo w fuel prompt aspectRatio
         = ([GenerateVideos (generateVideo_request prompt (default_aspect aspectRatio))
                            (inl e)],
            Rejected e)).
Proof.
  intros [k [_ Hk]]%getAI_with_key.
  unfold editCode, chat, generateImage, analyzeImage, generateVideo. rewrite Hk.
  cbn [Task.run Task.ret Task.bind Task.call app].
  repeat split; intros; match goal with H : _ = inl e |- _ => now rewrite H end.
Qed.

Definition refusing (e : exn) : World :=
  {| GEMINI_API_KEY := Some (js "key");
     models_generateContent := fun _ => inl e;
     chat_sendMessage := fun _ => inl e;
     models_generateVideos := fun _ => inl e;
     operations_getVideosOperation := fun _ _ => inl e;
     fetch := fun _ _ => inl e;
     response_blob := fun _ => inl e;
     URL_createObjectURL := fun _ => [];
     live_connect := fun _ => inl e |}.

Lemma provider_rejection_propagates_witness :
  editCode (refusing (Failure 503)) (js "let x = 0;") (js "tidy") (js "a.ts")
  = ([GenerateContent (editCode_request (js "let x = 0;") (js "tidy") (js "a.ts"))],
     Rejected (Failure 503)).
Proof.
  apply (@provider_rejection_propagates (refusing (Failure 503)) (Failure 503));
    reflexivity.
Defined.

(** ** What the cleaning of [editCode] leaves alone *)

Lemma includes_cons_false p c s :
  JsString.includes p (c :: s) = false ->
  JsString.startsWith p (c :: s) = false /\ JsString.includes p s = false.
Proof. simpl. now intros [? ?]%orb_false_elim. Qed.

(** Without a marker there is nothing to strip. *)
Lemma strip_fence_free s :
  JsString.includes Fence.marker s = false -> Fence.strip s = s.
Proof.
  induction s as [|c s IH]; [reflexivity|].
  intros [Hs Hi]%includes_cons_false.
  rewrite FenceFacts.strip_keep.
  - now rewrite IH.
  - now rewrite FenceFacts.match_here_spec, Hs.
Qed.

Lemma trimStart_fixed s :
  match s with c :: _ => JsString.is_space c = false | [] => True end ->
  JsString.trimStart s = s.
Proof. destruct s as [|c s]; [reflexivity|]. simpl. now intros ->. Qed.

Lemma trimStart_head s :
  match JsString.trimStart s with
  | c :: _ => JsString.is_space c = false
  | [] => True
  end.
Proof.
  induction s as [|c s IH]; [exact I|]. simpl.
  destruct (JsString.is_space c) eqn:E; [exact IH|exact E].
Qed.

Lemma trimEnd_head s :
  match s with c :: _ => JsString.is_space c = false | [] => True end ->
  match JsString.trimEnd s with
  | c :: _ => JsString.is_space c = false
  | [] => True
  end.
Proof.
  destruct s as [|c s]; [trivial|]. simpl. intros H.
  destruct (JsString.trimEnd s); [now rewrite H|exact H].
Qed.

Lemma trimEnd_idempotent s :
  JsString.trimEnd (JsString.trimEnd s) = JsString.trimEnd s.
Proof.
  induction s as [|c s IH]; [reflexivity|]. simpl.
  destruct (JsString.trimEnd s) as [|d r] eqn:E.
  - destruct (JsString.is_space c) eqn:S; [reflexivity|]. simpl. now rewrite S.
  - change (JsString.trimEnd (c :: d :: r))
      with (match JsString.trimEnd (d :: r) with
            | [] => if JsString.is_space c then [] else [c]
            | x => c :: x
            end).
    now rewrite IH.
Qed.

Lemma trim_idempotent s : JsString.trim (JsString.trim s) = JsString.trim s.
Proof.
  unfold JsString.trim.
  rewrite (trimStart_fixed (trimEnd_head (trimStart_head s))).
  apply trimEnd_idempotent.
Qed.

(** X2: A response text with no code-fence marker in it is returned trimmed
    and otherwise as it came. *)
Theorem fence_free_text_is_only_trimmed w code instruction filename response t :
  has_key w ->
  models_generateContent w (editCode_request code instruction filename) = inr response ->
  Response.text response = Some t ->
  JsString.includes Fence.marker t = false ->
  JsString.trim t <> [] ->
  Task.outcome (editCode w code instruction filename) = Resolved (JsString.trim t).
Proof.
  intros Hk Hr Ht Hf Hn. rewrite (editCode_resolves Hk Hr), Ht.
  cbn [Task.outcome snd unfenced option_map or_else]. rewrite (strip_fence_free Hf).
  apply JsStringFacts.truthy_nonempty in Hn. now rewrite Hn.
Qed.

Lemma fence_free_text_is_only_trimmed_witness :
  Task.outcome (editCode (answering (text_response (Some (js " let x = `1`;
"))))
                         (js "let x = 0;") (js "quote it") (js "a.ts"))
  = Resolved (js "let x = `1`;").
Proof.
  apply (@fence_free_text_is_only_trimmed
           (answering (text_response (Some (js " let x = `1`;
")))) (js "let x = 0;") (js "quote it") (js "a.ts")
           (text_response (Some (js " let x = `1`;
"))) (js " let x = `1`;
")); try reflexivity. discriminate.
Defined.

(** X3: Cleaning is idempotent: the cleaned text goes through the same
    [replace] and [trim] unchanged. *)
Theorem unfenced_idempotent text : unfenced (unfenced text) = unfenced text.
Proof.
  destruct text as [t|]; [|reflexivity]. cbn [unfenced option_map]. f_equal.
  rewrite (strip_fence_free (unfenced_no_marker t)). apply trim_idempotent.
Qed.

End ServiceMore.

Module PromptFacts.
Import geminiService.

Definition dot : N := 46.

Lemma split_nonempty sep s : JsString.split sep s <> [].
Proof.
  destruct s as [|c s]; simpl; [discriminate|].
  destruct (N.eqb c sep); [discriminate|].
  destruct (JsString.split sep s); discriminate.
Qed.

Lemma split_no_separator sep s : ~ In sep s -> JsString.split sep s = [s].
Proof.
  induction s as [|c s IH]; [reflexivity|]. simpl. intros H.
  destruct (N.eqb_spec c sep) as [->|_]; [tauto|].
  rewrite IH by tauto. reflexivity.
Qed.

Lemma last_cons_nonempty (A : Type) (x : A) l d : l <> [] -> last (x :: l) d = last l d.
Proof. destruct l; [congruence|reflexivity]. Qed.

Lemma split_two_pieces sep s :
  In sep s -> exists p q r, JsString.split sep s = p :: q :: r.
Proof.
  induction s as [|c s IH]; [contradiction|]. simpl. intros H.
  destruct (N.eqb_spec c sep) as [->|Hc].
  - destruct (JsString.split sep s) as [|q r] eqn:E.
    + now apply split_nonempty in E.
    + now exists [], q, r.
  - destruct H as [H|H]; [congruence|].
    destruct (IH H) as (p & q & r & ->). now exists (c :: p), q, r.
Qed.

Lemma last_split_cons sep c s :
  In sep s ->
  last (JsString.split sep (c :: s)) [] = last (JsString.split sep s) [].
Proof.
  intros H. simpl. destruct (N.eqb c sep).
  - apply last_cons_nonempty, split_nonempty.
  - destruct (split_two_pieces H) as (p & q & r & ->). reflexivity.
Qed.

Lemma last_no_separator sep s :
  ~ In sep (last (JsString.split sep s) []).
Proof.
  induction s as [|c s IH]; [simpl; tauto|].
  destruct (in_dec N.eq_dec sep s) as [H|H].
  - now rewrite (last_split_cons c H).
  - simpl. destruct (N.eqb_spec c sep) as [->|Hc].
    + rewrite last_cons_nonempty by apply split_nonempty. exact IH.
    + rewrite (split_no_separator H). simpl. intros [E|E]; [congruence|tauto].
Qed.

(** X4: [filename.split('.').pop()]: what follows the last dot of the file
    name, and the whole name when it has no dot.  The language announced to
    the model is that suffix; it never holds a dot. *)
Theorem extension_is_last_suffix :
  (forall filename, ~ In dot (extension filename))
  /\ (forall filename, ~ In dot filename -> extension filename = filename)
  /\ (forall stem suffix,
         ~ In dot suffix -> extension (stem ++ dot :: suffix) = suffix).
Proof.
  unfold extension. fold dot. split; [intros f; apply last_no_separator|].
  split.
  - intros f H. now rewrite (split_no_separator H).
  - intros stem suffix H. induction stem as [|c stem IH].
    + cbn [app JsString.split]. rewrite N.eqb_refl.
      rewrite last_cons_nonempty by apply split_nonempty.
      now rewrite (split_no_separator H).
    + change ((c :: stem) ++ dot :: suffix) with (c :: stem ++ dot :: suffix).
      rewrite last_split_cons; [exact IH|].
      apply in_or_app. right. now left.
Qed.

Lemma extension_is_last_suffix_witness :
  extension (js "Makefile") = js "Makefile"
  /\ extension (js "app.test.ts") = js "ts".
Proof.
  split.
  - apply extension_is_last_suffix. vm_compute. intuition discriminate.
  - apply (proj2 (proj2 extension_is_last_suffix) (js "app.test") (js "ts")).
    vm_compute. intuition discriminate.
Defined.

End PromptFacts.

Module ImageMore.
Import geminiService ServiceFacts ImageFacts.

(** X5: Whenever [generateImage] resolves, its value is the PNG prefix
    followed by the payload of the first part of the first candidate that
    has inline data: the media type the provider gave is not consulted, and
    a part whose inline data has no payload yields the text [undefined]
    after the prefix rather than an error. *)
Theorem generateImage_resolved_shape w prompt aspectRatio imageSize uri :
  Task.outcome (generateImage w prompt aspectRatio imageSize) = Resolved uri ->
  exists response c rest ct ps part blob,
    models_generateContent w
      (generateImage_request prompt (default aspectRatio (js "1:1"))
                             (default imageSize (js "1K"))) = inr response
    /\ Response.candidates response = Some (c :: rest)
    /\ Candidate.content c = Some ct
    /\ Content.parts ct = Some ps
    /\ find has_inlineData ps = Some part
    /\ Part.inlineData part = Some blob
    /\ uri = png_prefix ++ match Blob.data blob with
                           | Some payload => payload
                           | None => js "undefined"
                           end.
Proof.
  destruct (JsString.truthy_opt (GEMINI_API_KEY w)) eqn:K.
  2:{ unfold generateImage. now rewrite (getAI_without_key K). }
  destruct (models_generateContent w
              (generateImage_request prompt (default aspectRatio (js "1:1"))
                                     (default imageSize (js "1K"))))
    as [e|response] eqn:R.
  { unfold generateImage. destruct (getAI_with_key K) as [k [_ ->]].
    cbn [Task.run Task.ret Task.bind Task.call app]. now rewrite R. }
  rewrite (generateImage_replied K R). cbn [Task.outcome snd].
  unfold find_image_part.
  destruct (Response.candidates response) as [[|c cs]|] eqn:C; try discriminate.
  destruct (Candidate.content c) as [ct|] eqn:T; [|discriminate].
  destruct (Content.parts ct) as [ps|] eqn:P; [|discriminate].
  destruct (find has_inlineData ps) as [part|] eqn:F; [|discriminate].
  unfold image_result. destruct (Part.inlineData part) as [blob|] eqn:B; [|discriminate].
  intros [= <-]. exists response, c, cs, ct, ps, part, blob.
  repeat split; assumption || reflexivity.
Qed.

Definition image_response (b : Blob.t) : Response.t :=
  {| Response.candidates :=
       Some [ {| Candidate.content := Some {| Content.parts := Some
                   [ Part.of_text (js "here it is");
                     {| Part.inlineData := Some b; Part.text := None |} ] |};
                 Candidate.groundingMetadata := None |} ];
     Response.text := None |}.

Lemma generateImage_resolved_shape_witness :
  exists response c rest ct ps part blob,
    models_generateContent
      (answering (image_response {| Blob.data := None;
                                    Blob.mimeType := Some (js "image/jpeg") |}))
      (generateImage_request (js "a bear") (js "1:1") (js "1K")) = inr response
    /\ Response.candidates response = Some (c :: rest)
    /\ Candidate.content c = Some ct
    /\ Content.parts ct = Some ps
    /\ find has_inlineData ps = Some part
    /\ Part.inlineData part = Some blob
    /\ js "data:image/png;base64,undefined"
       = png_prefix ++ match Blob.data blob with
                       | Some payload => payload
                       | None => js "undefined"
                       end.
Proof.
  apply (@generateImage_resolved_shape
           (answering (image_response {| Blob.data := None;
                                         Blob.mimeType := Some (js "image/jpeg") |}))
           (js "a bear") None None).
  reflexivity.
Defined.

End ImageMore.

(** * Further properties of the video poll loop *)

Module PollMore.
Import geminiService PollFacts.

(** [n] rounds that report the operation not done, then the rest of the
    loop. *)
Lemma poll_rounds_then w ops n : forall fuel k,
  (forall i, i < n ->
     Operation.is_done (ops (k + i)) = false
     /\ operations_getVideosOperation w (k + i) (ops (k + i)) = inr (ops (S (k + i)))) ->
  n <= fuel ->
  poll w fuel k (ops k)
  = (rounds ops k n ++ Task.log (poll w (fuel - n) (k + n) (ops (k + n))),
     Task.outcome (poll w (fuel - n) (k + n) (ops (k + n)))).
Proof.
  induction n as [|n IH]; intros fuel k Hi Hf.
  - rewrite Nat.sub_0_r, Nat.add_0_r. now destruct (poll w fuel k (ops k)).
  - destruct fuel as [|fuel]; [lia|].
    destruct (Hi 0) as [H0 R0]; [lia|]. rewrite Nat.add_0_r in H0, R0.
    rewrite (poll_again _ H0 R0), (IH fuel (S k)).
    + cbn [Task.log Task.outcome fst snd Nat.sub]. unfold rounds.
      cbn [seq flat_map app]. now rewrite Nat.add_succ_r.
    + intros i Hlt. specialize (Hi (S i)). rewrite Nat.add_succ_r in Hi.
      apply Hi. lia.
    + lia.
Qed.

Lemma rounds_status_checks ops k n : Log.status_checks (rounds ops k n) = n.
Proof.
  unfold Log.status_checks, rounds. revert k.
  induction n as [|n IH]; intros k; [reflexivity|].
  cbn [seq flat_map app filter Log.is_status_check List.length]. now rewrite IH.
Qed.

(** ** No bound on the loop *)

Lemma poll_never_done w :
  (forall n op, exists op',
      operations_getVideosOperation w n op = inr op'
      /\ Operation.is_done op' = false) ->
  forall fuel n op,
    Operation.is_done op = false ->
    Task.outcome (poll w fuel n op) = Pending
    /\ Log.status_checks (Task.log (poll w fuel n op)) = fuel.
Proof.
  intros Hw. induction fuel as [|fuel IH]; intros n op Hd.
  - now rewrite (poll_out_of_fuel _ _ Hd).
  - destruct (Hw n op) as (op' & R & Hd'). rewrite (poll_again _ Hd R).
    destruct (IH (S n) op' Hd') as [-> Hc]. split; [reflexivity|].
    cbn [Task.log fst]. unfold Log.status_checks in *.
    cbn [filter Log.is_status_check List.length]. now rewrite Hc.
Qed.

(** X6: The loop has no retry limit and no timeout: against a provider that
    keeps reporting the operation not done, a run of any length is still
    pending, and it has made one status check per round. *)
Theorem never_done_never_settles w fuel prompt aspectRatio op0 :
  has_key w ->
  models_generateVideos w (generateVideo_request prompt (default_aspect aspectRatio))
  = inr op0 ->
  Operation.is_done op0 = false ->
  (forall n op, exists op',
      operations_getVideosOperation w n op = inr op'
      /\ Operation.is_done op' = false) ->
  Task.outcome (generateVideo w fuel prompt aspectRatio) = Pending
  /\ Log.status_checks (Task.log (generateVideo w fuel prompt aspectRatio)) = fuel.
Proof.
  intros Hk Hs Hd Hw. rewrite (generateVideo_submitted fuel Hk Hs).
  destruct (poll_never_done Hw fuel 0 Hd) as [-> Hc]. split; [reflexivity|].
  exact Hc.
Qed.

(** A provider whose operation never finishes. *)
Definition stalling : World :=
  {| GEMINI_API_KEY := Some (js "key");
     models_generateContent := fun _ => inl (Failure 0);
     chat_sendMessage := fun _ => inl (Failure 0);
     models_generateVideos := fun _ => inr not_done;
     operations_getVideosOperation := fun _ _ => inr not_done;
     fetch := fun _ _ => inr 7%N;
     response_blob := fun _ => inr 8%N;
     URL_createObjectURL := fun _ => js "blob:video";
     live_connect := fun _ => inl (Failure 0) |}.

Lemma never_done_never_settles_witness :
  Task.outcome (generateVideo stalling 40 (js "a bear") None) = Pending
  /\ Log.status_checks (Task.log (generateVideo stalling 40 (js "a bear") None)) = 40.
Proof.
  apply (@never_done_never_settles stalling 40 (js "a bear") None not_done);
    try reflexivity.
  intros n op. exists not_done. split; reflexivity.
Defined.

(** ** Failures on the way *)

(** X7: A status check that the provider rejects ends the call with the
    provider's error: the log stops at that check, and nothing is
    downloaded. *)
Theorem failed_status_check_rejects w fuel prompt aspectRatio ops n e :
  has_key w ->
  models_generateVideos w (generateVideo_request prompt (default_aspect aspectRatio))
  = inr (ops 0) ->
  (forall i, i < n ->
     Operation.is_done (ops i) = false
     /\ operations_getVideosOperation w i (ops i) = inr (ops (S i))) ->
  Operation.is_done (ops n) = false ->
  operations_getVideosOperation w n (ops n) = inl e ->
  n < fuel ->
  generateVideo w fuel prompt aspectRatio =
  (GenerateVideos (generateVideo_request prompt (default_aspect aspectRatio))
                  (inr (ops 0))
   :: rounds ops 0 n ++ [SetTimeout 5000; GetVideosOperation (ops n) (inl e)],
   Rejected e).
Proof.
  intros Hk Hs Hi Hd Hr Hf. rewrite (generateVideo_submitted fuel Hk Hs).
  rewrite (@poll_rounds_then w ops n fuel 0) by (assumption || lia).
  cbn [Nat.add]. destruct (fuel - n) as [|rest] eqn:E; [lia|].
  now rewrite (poll_failed _ Hd Hr).
Qed.

Lemma failed_status_check_rejects_witness :
  Task.outcome (generateVideo (scripted (inr not_done) [inr not_done; inl (Failure 429)])
                              9 (js "a bear") None)
  = Rejected (Failure 429).
Proof.
  rewrite (@failed_status_check_rejects
             (scripted (inr not_done) [inr not_done; inl (Failure 429)])
             9 (js "a bear") None
             (fun _ => not_done) 1 (Failure 429)); try reflexivity.
  - intros [|i] Hi; [split; reflexivity|lia].
  - lia.
Defined.

(** X8: When the finished operation has a link but the download fails, the
    call rejects with the error of the step that failed, [fetch] or [blob()],
    and no object URL is made. *)
Theorem failed_download_rejects w fuel prompt aspectRatio ops n link e :
  has_key w ->
  models_generateVideos w (generateVideo_request prompt (default_aspect aspectRatio))
  = inr (ops 0) ->
  (forall i, i < n ->
     Operation.is_done (ops i) = false
     /\ operations_getVideosOperation w i (ops i) = inr (ops (S i))) ->
  Operation.is_done (ops n) = true ->
  Operation.downloadLink (ops n) = Some link ->
  link <> [] ->
  n <= fuel ->
  (fetch w link (GEMINI_API_KEY w) = inl e ->
   generateVideo w fuel prompt aspectRatio =
   (GenerateVideos (generateVideo_request prompt (default_aspect aspectRatio))
                   (inr (ops 0))
    :: rounds ops 0 n ++ [Fetch link (GEMINI_API_KEY w)],
    Rejected e))
  /\ (forall r, fetch w link (GEMINI_API_KEY w) = inr r ->
                response_blob w r = inl e ->
      generateVideo w fuel prompt aspectRatio =
      (GenerateVideos (generateVideo_request prompt (default_aspect aspectRatio))
                      (inr (ops 0))
       :: rounds ops 0 n ++ [Fetch link (GEMINI_API_KEY w); ReadBlob r],
       Rejected e)).
Proof.
  intros Hk Hs Hi Hd Hl Hn Hf.
  apply JsStringFacts.truthy_nonempty in Hn.
  assert (E : generateVideo w fuel prompt aspectRatio = _)
    by exact (generateVideo_submitted fuel Hk Hs).
  rewrite (@poll_rounds w ops n fuel 0) in E by assumption.
  cbn [Task.outcome Task.log fst snd Nat.add] in E.
  unfold download in E. rewrite Hl, Hn in E.
  split.
  - intros Hfetch. rewrite Hfetch in E. exact E.
  - intros r Hfetch Hblob. rewrite Hfetch in E.
    cbn [Task.call Task.bind] in E. rewrite Hblob in E. exact E.
Qed.

Definition offline (e : exn) : World :=
  {| GEMINI_API_KEY := Some (js "key");
     models_generateContent := fun _ => inl (Failure 0);
     chat_sendMessage := fun _ => inl (Failure 0);
     models_generateVideos := fun _ => inr (done_with (Some (js "https://v")));
     operations_getVideosOperation := fun _ _ => inl (Failure 0);
     fetch := fun _ _ => inl e;
     response_blob := fun _ => inr 8%N;
     URL_createObjectURL := fun _ => js "blob:video";
     live_connect := fun _ => inl (Failure 0) |}.

Lemma failed_download_rejects_witness :
  generateVideo (offline (Failure 1)) 0 (js "a bear") None =
  ([GenerateVideos (generateVideo_request (js "a bear") Request.Landscape)
                   (inr (done_with (Some (js "https://v"))));
    Fetch (js "https://v") (Some (js "key"))],
   Rejected (Failure 1)).
Proof.
  apply (@failed_download_rejects (offline (Failure 1)) 0 (js "a bear") None
           (fun _ => done_with (Some (js "https://v"))) 0 (js "https://v") (Failure 1));
    try reflexivity.
  - intros i Hi. lia.
  - discriminate.
Defined.


(** ** Success *)

Lemma poll_resolved w : forall fuel n op0 op,
  Task.outcome (poll w fuel n op0) = Resolved op ->
  Operation.is_done op = true
  /\ fold_left PollInvariant.note (Task.log (poll w fuel n op0)) (Some (inr op0))
     = Some (inr op).
Proof.
  induction fuel as [|fuel IH]; intros n op0 op;
    destruct (Operation.is_done op0) eqn:D.
  - rewrite (poll_done _ _ _ D). now intros [= <-].
  - now rewrite (poll_out_of_fuel _ _ D).
  - rewrite (poll_done _ _ _ D). now intros [= <-].
  - destruct (operations_getVideosOperation w n op0) as [e|op'] eqn:R.
    + now rewrite (poll_failed _ D R).
    + rewrite (poll_again _ D R). cbn [Task.outcome Task.log fst snd].
      intros H. destruct (IH _ _ _ H) as [Hd Hl]. split; [exact Hd|exact Hl].
Qed.

(** X9: [generateVideo] resolves only at the end of a download: the last
    report before it said the operation was done and carried a non-empty
    link; that link was fetched with the configured key as
    [x-goog-api-key], the body was read, and the value is the object URL made
    of it. *)
Theorem resolves_only_after_download w fuel prompt aspectRatio url :
  Task.outcome (generateVideo w fuel prompt aspectRatio) = Resolved url ->
  exists pre op link r b key,
    Task.log (generateVideo w fuel prompt aspectRatio)
    = pre ++ [Fetch link (Some key); ReadBlob r; CreateObjectURL b]
    /\ Log.last_report pre = Some (inr op)
    /\ Operation.is_done op = true
    /\ Operation.downloadLink op = Some link
    /\ link <> []
    /\ GEMINI_API_KEY w = Some key
    /\ key <> []
    /\ url = URL_createObjectURL w b.
Proof.
  destruct (JsString.truthy_opt (GEMINI_API_KEY w)) eqn:K.
  2:{ unfold generateVideo. now rewrite (ServiceFacts.getAI_without_key K). }
  destruct (models_generateVideos w
              (generateVideo_request prompt (default_aspect aspectRatio)))
    as [e|op0] eqn:S.
  { unfold generateVideo. destruct (ServiceFacts.getAI_with_key K) as [k [_ ->]].
    cbn [Task.run Task.ret Task.bind Task.call app]. now rewrite S. }
  rewrite (generateVideo_submitted fuel K S). cbv zeta.
  destruct (Task.outcome (poll w fuel 0 op0)) as [op| |] eqn:P; try discriminate.
  destruct (poll_resolved P) as [Hd Hl].
  cbn [Task.outcome Task.log fst snd]. unfold download.
  destruct (Operation.downloadLink op) as [link|] eqn:L; [|discriminate].
  destruct (JsString.truthy link) eqn:T; [|discriminate].
  destruct (GEMINI_API_KEY w) as [key|] eqn:Key; [|discriminate K].
  cbn [Task.call Task.bind].
  destruct (fetch w link (Some key)) as [e|r]; [discriminate|].
  cbn [Task.call Task.bind].
  destruct (response_blob w r) as [e|b]; [discriminate|].
  cbn [fst snd app]. intros [= <-].
  exists (GenerateVideos (generateVideo_request prompt (default_aspect aspectRatio))
                         (inr op0) :: Task.log (poll w fuel 0 op0)),
         op, link, r, b, key.
  repeat split; try assumption || reflexivity.
  - now apply JsStringFacts.truthy_nonempty.
  - now apply JsStringFacts.truthy_nonempty.
Qed.

Lemma resolves_only_after_download_witness :
  exists pre op link r b key,
    Task.log (generateVideo
                (scripted (inr not_done) [inr (done_with (Some (js "https://v")))])
                3 (js "a bear") None)
    = pre ++ [Fetch link (Some key); ReadBlob r; CreateObjectURL b]
    /\ Log.last_report pre = Some (inr op)
    /\ Operation.is_done op = true
    /\ Operation.downloadLink op = Some link
    /\ link <> []
    /\ Some (js "key") = Some key
    /\ key <> []
    /\ js "blob:video" = js "blob:video".
Proof.
  apply (@resolves_only_after_download
           (scripted (inr not_done) [inr (done_with (Some (js "https://v")))])
           3 (js "a bear") None (js "blob:video")).
  reflexivity.
Defined.

End PollMore.

(** * Further properties of the live-audio bridge *)

Module Base64Facts.
Import Base64.

#[local] Ltac Zify.zify_post_hook ::= Z.to_euclidean_division_equations.

(** The six-bit groups of a byte string, as [encode] cuts them. *)
Fixpoint sextets (bytes : list N) : list N :=
  (match bytes with
   | a :: b :: c :: rest =>
       a / 4 :: (a mod 4) * 16 + b / 16 :: (b mod 16) * 4 + c / 64 :: c mod 64
       :: sextets rest
   | [a; b] => [a / 4; (a mod 4) * 16 + b / 16; (b mod 16) * 4]
   | [a] => [a / 4; (a mod 4) * 16]
   | [] => []
   end)%N.

Lemma list_ind3 (A : Type) (P : list A -> Prop) :
  P [] -> (forall a, P [a]) -> (forall a b, P [a; b]) ->
  (forall a b c l, P l -> P (a :: b :: c :: l)) ->
  forall l, P l.
Proof.
  intros H0 H1 H2 H3 l.
  enough (P l /\ (forall a, P (a :: l)) /\ (forall a b, P (a :: b :: l))) by tauto.
  induction l as [|x l (IH0 & IH1 & IH2)]; auto.
Qed.

(** Each of the 64 digits is found back by [value]; none is the padding
    sign and none is white space. *)
Lemma digit_table :
  forallb (fun i => match value (digit i) with
                    | Some j => N.eqb i j
                    | None => false
                    end
                    && negb (N.eqb (digit i) pad)
                    && negb (is_ascii_whitespace (digit i)))
          (map N.of_nat (seq 0 64)) = true.
Proof. vm_compute. reflexivity. Qed.

Lemma digit_facts i :
  (i < 64)%N ->
  value (digit i) = Some i /\ digit i <> pad /\ is_ascii_whitespace (digit i) = false.
Proof.
  intros H. pose proof digit_table as T. rewrite forallb_forall in T.
  assert (Hin : In i (map N.of_nat (seq 0 64))).
  { apply in_map_iff. exists (N.to_nat i). split; [apply N2Nat.id|].
    apply in_seq. lia. }
  specialize (T i Hin). apply andb_prop in T as [T12 T3].
  apply andb_prop in T12 as [T1 T2].
  destruct (value (digit i)) as [j|]; [|discriminate].
  apply N.eqb_eq in T1. subst j. repeat split.
  - intros E. rewrite E, N.eqb_refl in T2. discriminate.
  - now destruct (is_ascii_whitespace (digit i)).
Qed.

Definition small (n : N) (l : list N) : Prop := Forall (fun x => x < n)%N l.

Lemma sextets_small bytes : small 256 bytes -> small 64 (sextets bytes).
Proof.
  unfold small. induction bytes as [| a | a b | a b c l IH] using list_ind3;
    intros H; cbn [sextets].
  - constructor.
  - inversion_clear H. repeat constructor; lia.
  - inversion_clear H as [|? ? Ha H']. inversion_clear H' as [|? ? Hb _].
    repeat constructor; lia.
  - inversion_clear H as [|? ? Ha H']. inversion_clear H' as [|? ? Hb H''].
    inversion_clear H'' as [|? ? Hc Hl].
    repeat (constructor; [lia|]). now apply IH.
Qed.

Lemma decode_sextets bytes : small 256 bytes -> decode (sextets bytes) = bytes.
Proof.
  unfold small. induction bytes as [| a | a b | a b c l IH] using list_ind3;
    intros H; cbn [sextets decode].
  - reflexivity.
  - inversion_clear H. f_equal. lia.
  - inversion_clear H as [|? ? Ha H']. inversion_clear H' as [|? ? Hb _].
    f_equal; [lia|]. f_equal. lia.
  - inversion_clear H as [|? ? Ha H']. inversion_clear H' as [|? ? Hb H''].
    inversion_clear H'' as [|? ? Hc Hl].
    rewrite (IH Hl). f_equal; [lia|]. f_equal; [lia|]. f_equal. lia.
Qed.

Lemma values_digits vs : small 64 vs -> values (map digit vs) = Some vs.
Proof.
  induction 1 as [|v vs Hv _ IH]; [reflexivity|]. cbn [map values].
  destruct (digit_facts Hv) as (-> & _ & _). now rewrite IH.
Qed.

Lemma digits_not_whitespace vs :
  small 64 vs ->
  filter (fun c => negb (is_ascii_whitespace c)) (map digit vs) = map digit vs.
Proof.
  induction 1 as [|v vs Hv _ IH]; [reflexivity|]. cbn [map filter].
  destruct (digit_facts Hv) as (_ & _ & ->). cbn [negb]. now rewrite IH.
Qed.

(** What [encode] writes: the digits of the six-bit groups, then no, one
    or two padding signs, four characters for every three bytes. *)
Lemma encode_shape bytes :
  exists p k r,
    encode bytes = map digit (sextets bytes) ++ p
    /\ (p = [] \/ p = [pad] \/ p = [pad; pad])
    /\ List.length (encode bytes) = k * 4
    /\ List.length (sextets bytes) = r + k * 4 - List.length p
    /\ (List.length p = 0 -> r = 0)
    /\ (List.length p <> 0 -> k <> 0 /\ r = 0).
Proof.
  induction bytes as [| a | a b | a b c l IH] using list_ind3.
  - exists [], 0, 0. cbn. repeat split; auto; lia.
  - exists [pad; pad], 1, 0. cbn. repeat split; auto; lia.
  - exists [pad], 1, 0. cbn. repeat split; auto; lia.
  - destruct IH as (p & k & r & E & Hp & Hl & Hs & H0 & H1).
    exists p, (S k), r. cbn [encode sextets map app List.length]. rewrite E.
    split; [reflexivity|]. split; [exact Hp|].
    split; [rewrite <- E, Hl; lia|].
    split; [|split; [exact H0|]].
    + rewrite Hs. destruct Hp as [->|[->| ->]]; cbn [List.length] in *; lia.
    + intros Hn. destruct (H1 Hn). split; [lia|assumption].
Qed.

Lemma drop_padding_encode bytes :
  small 256 bytes -> drop_padding (encode bytes) = map digit (sextets bytes).
Proof.
  intros Hb. pose proof (sextets_small Hb) as Hs.
  destruct (encode_shape bytes) as (p & k & r & E & Hp & Hl & Hlen & H0 & H1).
  unfold drop_padding. rewrite Hl, Nat.Div0.mod_mul. cbn [Nat.eqb].
  rewrite E.
  assert (Hx : Forall (fun c => c <> pad) (map digit (sextets bytes))).
  { clear -Hs. induction Hs as [|v vs Hv _ IH]; constructor; [|exact IH].
    now destruct (digit_facts Hv) as (_ & ? & _). }
  remember (map digit (sextets bytes)) as x eqn:Ex. clear Ex Hlen Hs.
  change JsString.code_unit with N in *.
  assert (Hr : match rev x with a :: _ => N.eqb a pad = false | [] => True end).
  { destruct (rev x) as [|a l] eqn:Hrev; [exact I|].
    apply N.eqb_neq. rewrite Forall_forall in Hx. apply Hx.
    apply in_rev. rewrite Hrev. now left. }
  destruct Hp as [->|[->| ->]].
  - rewrite app_nil_r. destruct (rev x) as [|a [|b l]] eqn:Hrev; try reflexivity.
    now rewrite Hr.
  - rewrite rev_app_distr. change (rev [pad]) with [pad]. cbn [app].
    rewrite N.eqb_refl. destruct (rev x) as [|b l] eqn:Hrev.
    + exfalso. destruct (H1 ltac:(discriminate)) as [Hk _].
      assert (Hnil : x = []) by (now rewrite <- (rev_involutive x), Hrev).
      rewrite E, Hnil in Hl. cbn [List.length app] in Hl. lia.
    + rewrite Hr. now rewrite <- Hrev, rev_involutive.
  - rewrite rev_app_distr. change (rev [pad; pad]) with [pad; pad]. cbn [app].
    rewrite !N.eqb_refl. apply rev_involutive.
Qed.

Lemma btoa_bytes bytes : small 256 bytes -> btoa bytes = inr (encode bytes).
Proof.
  intros Hb. unfold btoa. replace (forallb _ bytes) with true; [reflexivity|].
  symmetry. apply forallb_forall. intros c Hc. apply N.leb_le.
  unfold small in Hb. rewrite Forall_forall in Hb. specialize (Hb c Hc). lia.
Qed.

Lemma atob_encode bytes : small 256 bytes -> atob (encode bytes) = inr bytes.
Proof.
  intros Hb. pose proof (sextets_small Hb) as Hs.
  destruct (encode_shape bytes) as (p & k & r & E & Hp & Hl & Hlen & H0 & H1).
  unfold atob.
  assert (F : filter (fun c => negb (is_ascii_whitespace c)) (encode bytes)
              = encode bytes).
  { rewrite E, filter_app, (digits_not_whitespace Hs). f_equal.
    destruct Hp as [->|[->| ->]]; reflexivity. }
  rewrite F, (drop_padding_encode Hb), length_map, (values_digits Hs).
  rewrite (decode_sextets Hb).
  replace (List.length (sextets bytes) mod 4 =? 1) with false; [reflexivity|].
  symmetry. apply Nat.eqb_neq. rewrite Hlen.
  destruct Hp as [->|[->| ->]]; cbn [List.length] in *.
  - rewrite (H0 eq_refl). cbn [Nat.add]. rewrite Nat.sub_0_r, Nat.Div0.mod_mul. lia.
  - destruct (H1 ltac:(discriminate)) as [Hk ->]. destruct k as [|k]; [lia|].
    replace (0 + S k * 4 - 1) with (3 + k * 4) by lia.
    rewrite Nat.Div0.mod_add. cbn. lia.
  - destruct (H1 ltac:(discriminate)) as [Hk ->]. destruct k as [|k]; [lia|].
    replace (0 + S k * 4 - 2) with (2 + k * 4) by lia.
    rewrite Nat.Div0.mod_add. cbn. lia.
Qed.

(** X10: The round trip of the two browser functions the bridge relies on:
    what [btoa] wrote for a string of bytes, [atob] reads back as the same
    bytes. *)
Theorem atob_btoa bytes :
  small 256 bytes ->
  exists base64, btoa bytes = inr base64 /\ atob base64 = inr bytes.
Proof.
  intros Hb. exists (encode bytes). split; [now apply btoa_bytes|now apply atob_encode].
Qed.

Lemma atob_btoa_witness :
  exists base64, btoa [255; 63; 1; 128]%N = inr base64
                 /\ atob base64 = inr [255; 63; 1; 128]%N.
Proof.
  apply (@atob_btoa [255; 63; 1; 128]%N). repeat constructor.
Defined.

End Base64Facts.

Module AudioMore.
Import Number LiveAudio Base64Facts.
Local Open Scope Z_scope.

#[local] Ltac Zify.zify_post_hook ::= Z.to_euclidean_division_equations.

Definition int16 (z : Z) : Prop := -32768 <= z <= 32767.

Lemma wrap16_int16 z : int16 (wrap16 z).
Proof.
  unfold int16, wrap16. destruct (Z.leb_spec 32768 (z mod 65536)); lia.
Qed.

Lemma bytes_of_int16_small pcm : small 256 (flat_map bytes_of_int16 pcm).
Proof.
  unfold small. induction pcm as [|z pcm IH]; [constructor|].
  cbn [flat_map bytes_of_int16 app].
  constructor; [lia|]. constructor; [lia|]. exact IH.
Qed.

(** The byte view of an [Int16Array] read back through an [Int16Array]
    view. *)
Lemma int16_of_bytes_of_int16 pcm :
  Forall int16 pcm -> int16_of_bytes (flat_map bytes_of_int16 pcm) = inr pcm.
Proof.
  induction 1 as [|z pcm Hz _ IH]; [reflexivity|].
  cbn [flat_map bytes_of_int16 app int16_of_bytes]. rewrite IH.
  do 2 f_equal. unfold int16 in Hz. rewrite !Z2N.id by lia.
  replace (z mod 65536 mod 256 + 256 * (z mod 65536 / 256)) with (z mod 65536) by lia.
  unfold wrap16. destruct (Z.leb_spec 32768 (z mod 65536 mod 65536)); lia.
Qed.

Lemma quantize_int16 inputData : Forall int16 (map quantize inputData).
Proof.
  induction inputData as [|x l IH]; constructor; [|exact IH].
  pose proof (AudioFacts.quantize_range x). unfold int16. lia.
Qed.

Lemma encode_nonempty b bytes : JsString.truthy (Base64.encode (b :: bytes)) = true.
Proof. destruct bytes as [|c [|d l]]; reflexivity. Qed.

(** X11: Capture never fails, and what it sends plays back as the captured
    buffer after quantization: the frame of a non-empty buffer of samples,
    given to the playback path as an inbound payload, starts a buffer of as
    many samples, each the 16-bit value of the captured one over [0x7FFF]. *)
Theorem capture_then_playback inputData :
  inputData <> [] ->
  exists frame,
    onaudioprocess inputData = inr frame
    /\ media_mimeType frame = js "audio/pcm;rate=16000"
    /\ playback (Some (media_data frame))
       = inr (Some (map (fun x => dequantize (quantize x)) inputData)).
Proof.
  intros Hne. unfold onaudioprocess.
  set (bytes := flat_map bytes_of_int16 (map quantize inputData)).
  assert (Hb : small 256 bytes) by apply bytes_of_int16_small.
  rewrite (btoa_bytes Hb). eexists. split; [reflexivity|]. split; [reflexivity|].
  cbn [media_data playback].
  assert (Ht : JsString.truthy (Base64.encode bytes) = true).
  { unfold bytes. destruct inputData as [|x l]; [congruence|].
    cbn [map flat_map bytes_of_int16 app]. apply encode_nonempty. }
  rewrite Ht, (atob_encode Hb). unfold bytes.
  rewrite (int16_of_bytes_of_int16 (quantize_int16 inputData)), map_map.
  destruct inputData; [congruence|reflexivity].
Qed.

Lemma capture_then_playback_witness :
  exists frame,
    onaudioprocess [Finite (1 # 2); NaN; Infinity true] = inr frame
    /\ media_mimeType frame = js "audio/pcm;rate=16000"
    /\ playback (Some (media_data frame))
       = inr (Some [(16383 # 32767)%Q; (0 # 32767)%Q; (-32767 # 32767)%Q]).
Proof.
  apply (@capture_then_playback [Finite (1 # 2); NaN; Infinity true]). discriminate.
Defined.

(** X12: Quantization rounds towards zero and loses less than one step: the
    value played back for a sample of [[-1, 1]] lies between zero and the
    sample, less than 1/32767 away from it. *)
Theorem quantization_error q :
  (-1 <= q <= 1)%Q ->
  (0 <= q -> q - (1 # 32767) < dequantize (quantize (Finite q))
             /\ dequantize (quantize (Finite q)) <= q)%Q
  /\ (q <= 0 -> q <= dequantize (quantize (Finite q))
                /\ dequantize (quantize (Finite q)) < q + (1 # 32767))%Q.
Proof.
  destruct q as [n d]. intros [Lo Hi]. unfold Qle in Lo, Hi. cbn in Lo, Hi.
  assert (Hq : quantize (Finite (n # d)) = Z.quot (n * 32767) (Z.pos d)).
  { unfold quantize, clamp, of_Z. cbn [Math_min].
    destruct (Qle_bool (inject_Z 1) (n # d)) eqn:A; cbn [Math_max].
    - apply Qle_bool_iff in A. unfold Qle in A. cbn in A.
      assert (n = Z.pos d) by lia. subst n.
      rewrite (Z.mul_comm (Z.pos d)), Z.quot_mul by lia. reflexivity.
    - destruct (Qle_bool (inject_Z (-1)) (n # d)) eqn:B.
      + cbn [mul ToInt16]. unfold truncate, Qmult, inject_Z. cbn [Qnum Qden].
        rewrite Pos.mul_1_r. apply AudioFacts.wrap16_small.
        pose proof (@AudioFacts.truncate_scaled n (Z.pos d) 32767) as T.
        rewrite Z.mul_1_r in T. lia.
      + assert (C : ~ (inject_Z (-1) <= n # d)%Q)
          by (rewrite <- Qle_bool_iff; congruence).
        unfold Qle in C. cbn in C. lia. }
  rewrite Hq. unfold dequantize.
  pose proof (Z.quot_rem' (n * 32767) (Z.pos d)) as E.
  pose proof (Z.rem_bound_abs (n * 32767) (Z.pos d) ltac:(lia)) as B.
  set (t := Z.quot (n * 32767) (Z.pos d)) in *.
  set (r := Z.rem (n * 32767) (Z.pos d)) in *.
  split; intros S; unfold Qle in S; cbn in S.
  - assert (0 <= r) by (apply Z.rem_nonneg; lia).
    unfold Qle, Qlt, Qminus, Qplus, Qopp. cbn [Qnum Qden].
    rewrite !Pos2Z.inj_mul. split; nia.
  - assert (r <= 0) by (apply Z.rem_nonpos; lia).
    unfold Qle, Qlt, Qplus. cbn [Qnum Qden].
    rewrite !Pos2Z.inj_mul. split; nia.
Qed.

Lemma quantization_error_witness :
  ((1 # 3) - (1 # 32767) < 10922 # 32767 /\ 10922 # 32767 <= 1 # 3)%Q.
Proof.
  apply (@quantization_error (1 # 3)); vm_compute; try split; discriminate.
Defined.

(** ** Playback *)

Lemma int16_of_bytes_int16 bytes pcm :
  int16_of_bytes bytes = inr pcm -> Forall int16 pcm.
Proof.
  enough (H : (forall pcm, int16_of_bytes bytes = inr pcm -> Forall int16 pcm)
              /\ (forall a pcm, int16_of_bytes (a :: bytes) = inr pcm
                                -> Forall int16 pcm))
    by (apply H).
  clear pcm. induction bytes as [|x l [IH0 IH1]].
  - split; [intros pcm [= <-]; constructor|discriminate].
  - split; [exact (IH1 x)|]. intros a pcm. cbn [int16_of_bytes].
    destruct (int16_of_bytes l) as [e|p] eqn:E; [discriminate|].
    intros [= <-]. constructor; [apply wrap16_int16|]. now apply IH0.
Qed.

(** X13: A buffer that is started is never empty, and its samples lie between
    -32768/32767 and 1: the lowest 16-bit value decodes to a little below
    -1, nothing decodes above 1. *)
Theorem playback_range base64Audio buffer :
  playback base64Audio = inr (Some buffer) ->
  buffer <> []
  /\ Forall (fun q => - (32768 # 32767) <= q /\ q <= 1)%Q buffer.
Proof.
  unfold playback. destruct base64Audio as [data|]; [|discriminate].
  destruct (JsString.truthy data); [|discriminate].
  destruct (Base64.atob data) as [e|binary]; [discriminate|].
  destruct (int16_of_bytes binary) as [e|pcm] eqn:P; [discriminate|].
  apply int16_of_bytes_int16 in P.
  destruct pcm as [|z pcm]; [discriminate|]. cbn [map createBuffer].
  intros [= <-]. split; [discriminate|].
  change (dequantize z :: map dequantize pcm) with (map dequantize (z :: pcm)).
  induction P as [|y l Hy _ IH]; constructor; [|exact IH].
  unfold int16 in Hy. unfold dequantize, Qle. cbn. lia.
Qed.

Lemma playback_range_witness :
  [(-32768 # 32767)%Q] <> []
  /\ Forall (fun q => - (32768 # 32767) <= q /\ q <= 1)%Q [(-32768 # 32767)%Q].
Proof.
  apply (@playback_range (Some (js "AIA="))). reflexivity.
Defined.

(** X14: The handler settles at once, and a rejection changes nothing: either
    it resolves, having started at most one buffer, or it rejects with the
    error of the part lookup or of the audio branch and the state is the
    one it was given. *)
Theorem onmessage_all_or_nothing message st :
  match snd (onmessage message st) with
  | Resolved _ =>
      exists part buffer,
        first_part message = inr part
        /\ playback (audio_of part) = inr buffer
        /\ started (fst (onmessage message st))
           = (started st ++ match buffer with Some b => [b] | None => [] end)%list
  | Rejected e =>
      fst (onmessage message st) = st
      /\ (first_part message = inl e
          \/ exists part, first_part message = inr part
                          /\ playback (audio_of part) = inl e)
  | Pending => False
  end.
Proof.
  unfold onmessage.
  destruct (first_part message) as [e|part]; [cbn; auto|].
  destruct (playback (audio_of part)) as [e|buffer] eqn:P.
  - cbn. split; [reflexivity|]. right. now exists part.
  - destruct (text_of part) as [text|]; [destruct (JsString.truthy text)|];
      cbn [snd fst started]; exists part, buffer;
      (split; [reflexivity|split; [exact P|]]);
      destruct buffer; now rewrite ?app_nil_r.
Qed.

End AudioMore.

(** * The handlers of [App] *)

Module AppFacts.
Import App.
Local Open Scope list_scope.

Lemma jsstring_eqb_eq a b : jsstring_eqb a b = true <-> a = b.
Proof. unfold jsstring_eqb. destruct (list_eq_dec N.eq_dec a b); split; congruence. Qed.

Lemma jsstring_eqb_refl a : jsstring_eqb a a = true.
Proof. now apply jsstring_eqb_eq. Qed.

(** ** Pairing *)

(** A PIN as the six inputs hold it: six slots, each a string of at most
    one unit. *)
Definition pin_shape (p : list (option jsstring)) : Prop :=
  List.length p = 6
  /\ Forall (fun d => exists v, d = Some v /\ List.length v <= 1) p.

Lemma first_unit_short value : List.length (first_unit value) <= 1.
Proof. destruct value as [|c [|d l]]; simpl; lia. Qed.

Lemma array_set_inside (A : Type) (a : list (option A)) index v :
  index < List.length a ->
  List.length (array_set a index v) = List.length a
  /\ array_get (array_set a index v) index = Some v
  /\ (forall j, j <> index -> array_get (array_set a index v) j = array_get a j).
Proof.
  revert index. induction a as [|x a IH]; intros [|i] H; simpl in H; try lia.
  - repeat split. intros [|j] Hj; [congruence|reflexivity].
  - destruct (IH i ltac:(lia)) as (L & G & O). cbn [array_set List.length].
    repeat split; [lia|exact G|].
    intros [|j] Hj; [reflexivity|]. apply (O j). congruence.
Qed.

Lemma array_set_Forall (A : Type) (P : option A -> Prop) (a : list (option A)) index v :
  index < List.length a -> Forall P a -> P (Some v) -> Forall P (array_set a index v).
Proof.
  revert index. induction a as [|x a IH]; intros [|i] H Ha Hv; simpl in H; try lia.
  - inversion_clear Ha. now constructor.
  - inversion_clear Ha. constructor; [assumption|]. apply IH; [lia|assumption..].
Qed.

(** X15: Typing in one of the six inputs keeps the PIN six slots of at most one
    unit each, writes the first unit of what was typed into that slot and
    touches no other slot; the focus moves to the next input when something
    was typed and there is a next input. *)
Theorem handlePinChange_keeps_shape index value s :
  pin_shape (pin s) ->
  index < 6 ->
  pin_shape (pin (fst (handlePinChange index value s)))
  /\ array_get (pin (fst (handlePinChange index value s))) index
     = Some (first_unit value)
  /\ (forall j, j <> index ->
        array_get (pin (fst (handlePinChange index value s))) j
        = array_get (pin s) j)
  /\ snd (handlePinChange index value s)
     = if JsString.truthy value && (index <? 5) then Some (index + 1) else None.
Proof.
  intros [L F] Hi. unfold handlePinChange. cbn [fst snd setPin pin].
  destruct (@array_set_inside _ (pin s) index (first_unit value)) as (L' & G & O);
    [lia|].
  split; [|split; [exact G|split; [exact O|]]].
  - split; [lia|]. apply array_set_Forall; [lia|exact F|].
    exists (first_unit value). split; [reflexivity|apply first_unit_short].
  - assert (T : JsString.truthy (first_unit value) = JsString.truthy value)
      by (now destruct value as [|c [|d l]]).
    rewrite T. unfold focus_target. rewrite L.
    destruct (JsString.truthy value); [|reflexivity]. cbn [andb].
    destruct (Nat.ltb_spec index 5); [|reflexivity].
    destruct (Nat.ltb_spec (index + 1) 6); [reflexivity|lia].
Qed.

Lemma handlePinChange_keeps_shape_witness :
  array_get (pin (fst (handlePinChange 2 (js "47") initial))) 2 = Some (js "4").
Proof.
  apply (@handlePinChange_keeps_shape 2 (js "47") initial); [|lia].
  split; [reflexivity|]. repeat constructor; exists []; split; auto.
Defined.

(** Filling the six inputs one after the other, then validating. *)
Definition type_pin (values : list jsstring) (s : State) : State :=
  fold_left (fun st iv => fst (handlePinChange (fst iv) (snd iv) st))
            (combine (seq 0 6) values) s.

(** X16: Nothing checks what the PIN is: whatever six non-empty values are
    typed into the six inputs, digits or not, [validatePin] connects, closes
    the dialog and fires the confetti, and the effect that follows selects
    the first file. *)
Theorem any_six_characters_pair v0 v1 v2 v3 v4 v5 :
  Forall (fun v => v <> []) [v0; v1; v2; v3; v4; v5] ->
  let typed := type_pin [v0; v1; v2; v3; v4; v5] (setShowPinModal true initial) in
  let paired := validatePin typed in
  isConnected (fst paired) = true
  /\ showPinModal (fst paired) = false
  /\ snd paired = true
  /\ activeFile (onConnectedChange (fst paired)) = nth_error INITIAL_FILES 0.
Proof.
  intros H.
  repeat match goal with
         | H : Forall _ (_ :: _) |- _ => inversion_clear H
         end.
  destruct v0 as [|c0 r0]; [congruence|]. destruct v1 as [|c1 r1]; [congruence|].
  destruct v2 as [|c2 r2]; [congruence|]. destruct v3 as [|c3 r3]; [congruence|].
  destruct v4 as [|c4 r4]; [congruence|]. destruct v5 as [|c5 r5]; [congruence|].
  destruct r0, r1, r2, r3, r4, r5; repeat split.
Qed.

Lemma any_six_characters_pair_witness :
  isConnected (fst (validatePin
                      (type_pin [js "a"; js " "; js "?"; js "zz"; js "-"; js "0"]
                                (setShowPinModal true initial)))) = true.
Proof.
  apply (@any_six_characters_pair (js "a") (js " ") (js "?") (js "zz") (js "-") (js "0")).
  repeat constructor; discriminate.
Defined.

(** X17: An input left empty keeps the workspace unpaired: [validatePin]
    changes nothing then; and Backspace in an empty input that is not the
    first one sends the focus one input back. *)
Theorem empty_slot_blocks_pairing s index :
  pin_shape (pin s) ->
  index < 6 ->
  array_get (pin s) index = Some [] ->
  validatePin s = (s, false)
  /\ handlePinKeyDown index Backspace s
     = if (0 <? index) then Some (index - 1) else None.
Proof.
  intros [L F] Hi G. split.
  - unfold validatePin. replace (every_filled (pin s)) with false; [reflexivity|].
    symmetry. unfold every_filled. apply not_true_is_false. intros E.
    rewrite forallb_forall in E. unfold array_get in G.
    destruct (nth_error (pin s) index) as [d|] eqn:N; [|discriminate]. subst d.
    apply nth_error_In in N. now specialize (E _ N).
  - unfold handlePinKeyDown. rewrite G, jsstring_eqb_refl. cbn [JsString.truthy_opt
      JsString.truthy negb andb]. unfold focus_target. rewrite L.
    destruct (Nat.ltb_spec 0 index); [|reflexivity].
    destruct (Nat.ltb_spec (index - 1) 6); [reflexivity|lia].
Qed.

Lemma empty_slot_blocks_pairing_witness :
  validatePin (fst (handlePinChange 0 (js "1") initial))
  = (fst (handlePinChange 0 (js "1") initial), false).
Proof.
  apply (@empty_slot_blocks_pairing (fst (handlePinChange 0 (js "1") initial)) 3);
    [|lia|reflexivity].
  split; [reflexivity|]. repeat constructor; eexists; split; try reflexivity; simpl; lia.
Defined.

End AppFacts.

Module EditorFacts.
Import App AppFacts.
Local Open Scope list_scope.

(** The file being edited, when there is one, is one of the files. *)
Definition coherent (s : State) : Prop :=
  match activeFile s with Some a => In a (files s) | None => True end.

Lemma update_named_names fs active c : map name (update_named fs active c) = map name fs.
Proof.
  unfold update_named. rewrite map_map. apply map_ext. intros f.
  now destruct (jsstring_eqb (name f) (name active)).
Qed.

Lemma update_named_languages fs active c :
  map language (update_named fs active c) = map language fs.
Proof.
  unfold update_named. rewrite map_map. apply map_ext. intros f.
  now destruct (jsstring_eqb (name f) (name active)).
Qed.

Lemma update_named_active fs active c :
  In active fs -> In (with_content active c) (update_named fs active c).
Proof.
  intros H. unfold update_named. apply in_map_iff. exists active.
  now rewrite jsstring_eqb_refl.
Qed.

Lemma resume_files type rendered active result s :
  files (handleAiAction_resume type rendered active result s) = files s
  \/ exists c, result = Resolved c
               /\ files (handleAiAction_resume type rendered active result s)
                  = update_named (files rendered) active c.
Proof.
  destruct result as [c| |]; [|now left..].
  destruct type; [right; now exists c|now left|right; now exists c].
Qed.

(** X18: No handler adds, removes, renames or reorders a file: the names and
    the languages of the files are the same after it as before. *)
Theorem files_keep_names_and_languages w s s' :
  (exists c, s' = onEditorChange c s)
  \/ (exists f, s' = onFileClick f s)
  \/ s' = onConnectedChange s
  \/ (exists type, s' = snd (handleAiAction w type s))
  \/ s' = snd (handleChatSubmit w s)
  \/ (exists i v, s' = fst (handlePinChange i v s))
  \/ s' = fst (validatePin s) ->
  map name (files s') = map name (files s)
  /\ map language (files s') = map language (files s).
Proof.
  intros [[c ->]|[[f ->]|[->|[[type ->]|[->|[(i & v & ->)| ->]]]]]].
  - unfold onEditorChange. destruct (activeFile s) as [a|]; [|easy].
    cbn [files setActiveFile setFiles].
    now rewrite update_named_names, update_named_languages.
  - unfold onFileClick. now destruct (isConnected s).
  - unfold onConnectedChange. now destruct (_ && _).
  - unfold handleAiAction. destruct (activeFile s) as [a|]; [|easy]. cbn [snd].
    destruct (resume_files type s a
                (Task.outcome (geminiService.editCode w (content a)
                                 (instruction_of type s) (name a)))
                (setAiResponse None (setIsAiLoading true s)))
      as [->|(c & _ & ->)]; [easy|].
    now rewrite update_named_names, update_named_languages.
  - unfold handleChatSubmit. destruct (JsString.truthy _); [|easy]. cbn [snd].
    now destruct (Task.outcome _).
  - easy.
  - unfold validatePin. now destruct (every_filled _).
Qed.

Lemma files_keep_names_and_languages_witness :
  map name (files (onEditorChange (js "print(1)")
                     (onFileClick {| name := js "app.js"; content := [];
                                     language := js "javascript" |}
                                  (setIsConnected true initial))))
  = map name (files (onFileClick {| name := js "app.js"; content := [];
                                    language := js "javascript" |}
                                 (setIsConnected true initial))).
Proof.
  apply (@files_keep_names_and_languages (ServiceFacts.keyless None)).
  left. now exists (js "print(1)").
Defined.

(** X19: The file being edited stays one of the files through every handler
    of the editor, as long as nothing happens during the [await] of
    [handleAiAction]. *)
Theorem active_file_stays_in_files w s :
  coherent s ->
  (forall c, coherent (onEditorChange c s))
  /\ (forall f, In f (files s) -> coherent (onFileClick f s))
  /\ coherent (onConnectedChange s)
  /\ (forall type, coherent (snd (handleAiAction w type s))).
Proof.
  unfold coherent. intros H. repeat split.
  - intros c. unfold onEditorChange. destruct (activeFile s) as [a|] eqn:A.
    + cbn [activeFile files setActiveFile setFiles]. now apply update_named_active.
    + now rewrite A.
  - intros f Hf. unfold onFileClick. destruct (isConnected s); [exact Hf|exact H].
  - unfold onConnectedChange. destruct (activeFile s) as [a|] eqn:A.
    + rewrite andb_false_r. now rewrite A.
    + rewrite andb_true_r. destruct (isConnected s); [|now rewrite A].
      cbn [activeFile files setActiveFile].
      destruct (nth_error (files s) 0) as [f|] eqn:N; [|exact I].
      now apply nth_error_In in N.
  - intros type. unfold handleAiAction. destruct (activeFile s) as [a|] eqn:A.
    + cbn [snd]. destruct (Task.outcome _) as [c|e|]; cbn [handleAiAction_resume].
      * destruct type; cbn [activeFile files setIsAiLoading setPrompt setActiveFile
                            setFiles setAiResponse];
          try (now apply update_named_active). now rewrite A.
      * cbn [activeFile files setIsAiLoading setAiResponse]. now rewrite A.
      * cbn [activeFile files setIsAiLoading setAiResponse]. now rewrite A.
    + cbn [snd]. now rewrite A.
Qed.

Lemma active_file_stays_in_files_witness :
  coherent (onConnectedChange (setIsConnected true initial)).
Proof.
  apply (@active_file_stays_in_files (ServiceFacts.keyless None)
           (setIsConnected true initial)).
  exact I.
Defined.

(** ** [handleAiAction] *)

(** X20: A failed action is swallowed.  Whether the key is missing or the
    provider rejects the request, the files, the file being edited and the
    prompt are what they were and the loading flag is down again; the
    previous answer is gone, cleared before the call; and at most the one
    request was sent. *)
Theorem failed_action_changes_no_file w type s active e :
  activeFile s = Some active ->
  JsString.truthy_opt (GEMINI_API_KEY w) = false
  \/ models_generateContent w
       (geminiService.editCode_request (content active) (instruction_of type s)
                                       (name active)) = inl e ->
  snd (handleAiAction w type s) = setIsAiLoading false (setAiResponse None s)
  /\ List.length (fst (handleAiAction w type s)) <= 1.
Proof.
  intros A H. unfold handleAiAction. rewrite A. cbn [fst snd].
  unfold geminiService.editCode.
  destruct (JsString.truthy_opt (GEMINI_API_KEY w)) eqn:K.
  - destruct H as [H|H]; [discriminate|].
    destruct (ServiceFacts.getAI_with_key K) as [k [_ ->]].
    cbn [Task.run Task.ret Task.bind Task.call app]. rewrite H. cbn. split; [reflexivity|lia].
  - rewrite (ServiceFacts.getAI_without_key K). cbn. split; [reflexivity|lia].
Qed.

Definition editing (f : File) (typed : jsstring) : State :=
  setPrompt typed (onFileClick f (setIsConnected true initial)).

Lemma failed_action_changes_no_file_witness :
  let f := {| name := js "app.js"; content := js "x"; language := js "javascript" |} in
  snd (handleAiAction (ServiceFacts.keyless None) Edit (editing f (js "tidy")))
  = setIsAiLoading false (setAiResponse None (editing f (js "tidy")))
  /\ List.length (fst (handleAiAction (ServiceFacts.keyless None) Edit
                                      (editing f (js "tidy")))) <= 1.
Proof.
  intros f.
  apply (@failed_action_changes_no_file (ServiceFacts.keyless None) Edit
           (editing f (js "tidy")) f MissingCredential); [reflexivity|].
  left. reflexivity.
Defined.

Lemma update_named_same fs active :
  NoDup (map name fs) -> In active fs -> update_named fs active (content active) = fs.
Proof.
  intros Hn Ha. unfold update_named. rewrite <- (map_id fs) at 2.
  apply map_ext_in. intros f Hf.
  destruct (jsstring_eqb (name f) (name active)) eqn:E; [|reflexivity].
  apply jsstring_eqb_eq in E.
  assert (f = active).
  { clear -Hn Ha Hf E. induction fs as [|x fs IH]; [contradiction|].
    cbn [map] in Hn. inversion_clear Hn as [|? ? Hx Hn'].
    destruct Ha as [->|Ha], Hf as [->|Hf]; try reflexivity.
    - exfalso. apply Hx. rewrite <- E. now apply in_map.
    - exfalso. apply Hx. rewrite E. now apply in_map.
    - now apply IH. }
  subst f. now destruct active.
Qed.

(** X21: An empty reply is a success that changes no content: with distinct
    file names, an edit whose reply has no text leaves every file and the
    file being edited as they were, and still clears the prompt; an
    explanation whose reply has no text shows the code of the file itself. *)
Theorem empty_reply_changes_no_content w type s active response :
  has_key w ->
  NoDup (map name (files s)) ->
  activeFile s = Some active ->
  In active (files s) ->
  models_generateContent w
    (geminiService.editCode_request (content active) (instruction_of type s)
                                    (name active)) = inr response ->
  match Response.text response with
  | Some t => JsString.trim (Fence.strip t) = []
  | None => True
  end ->
  snd (handleAiAction w type s)
  = setIsAiLoading false
      match type with
      | Edit => setAiResponse None (setPrompt [] s)
      | Explain => setAiResponse (Some (content active)) s
      | Fix => setAiResponse None s
      end.
Proof.
  intros Hk Hn A Hin Hr Ht. unfold handleAiAction. rewrite A. cbn [snd].
  rewrite (ServiceFacts.editCode_resolves Hk Hr). cbn [Task.outcome snd].
  assert (E : geminiService.or_else (geminiService.unfenced (Response.text response))
                                    (content active) = content active).
  { destruct (Response.text response) as [t|]; [|reflexivity].
    cbn [geminiService.unfenced option_map]. now rewrite Ht. }
  rewrite E. cbn [handleAiAction_resume].
  assert (W : with_content active (content active) = active) by now destruct active.
  rewrite W.
  destruct type; try rewrite (update_named_same Hn Hin);
    destruct s as [ic sp p fs af pr il ar cm ci]; cbn in A; subst af; reflexivity.
Qed.

Definition silent : World := ServiceFacts.answering (ServiceFacts.text_response None).

Lemma empty_reply_changes_no_content_witness :
  snd (handleAiAction silent Explain
         (onConnectedChange (setIsConnected true initial)))
  = setIsAiLoading false
      (setAiResponse (option_map content (nth_error INITIAL_FILES 0))
                     (onConnectedChange (setIsConnected true initial))).
Proof.
  apply (@empty_reply_changes_no_content silent Explain
           (onConnectedChange (setIsConnected true initial))
           {| name := js "main.luau"; language := js "luau";
              content := js "-- BearAI Luau Workspace" ++ lf
                  ++ js "local Player = game.Players.LocalPlayer" ++ lf ++ lf
                  ++ js "function onInit()" ++ lf
                  ++ js "    print(" ++ dq ++ js "Sistema iniciado" ++ dq ++ js ")" ++ lf
                  ++ js "end" ++ lf ++ lf ++ js "onInit()" |}
           (ServiceFacts.text_response None)); try reflexivity.
  - vm_compute. repeat constructor; simpl; intuition discriminate.
  - now left.
Defined.

End EditorFacts.

Module EditorMore.
Import App AppFacts EditorFacts.
Local Open Scope list_scope.




Definition app_js : File :=
  nth 2 INITIAL_FILES {| name := []; content := []; language := [] |}.



(** X23: What is typed in the editor while an edit or a fix is in flight is
    discarded when the reply arrives: the handler writes back the files of
    the render it started in, so the state is the one it would have reached
    had nothing been typed. *)
Theorem typed_during_await_is_discarded type rendered active newCode typed :
  type <> Explain ->
  activeFile rendered = Some active ->
  let started := setAiResponse None (setIsAiLoading true rendered) in
  handleAiAction_resume type rendered active (Resolved newCode)
                        (onEditorChange typed started)
  = handleAiAction_resume type rendered active (Resolved newCode) started.
Proof.
  intros Ht A started. unfold onEditorChange. subst started.
  cbn [activeFile setAiResponse setIsAiLoading]. rewrite A.
  destruct type; [|congruence|]; reflexivity.
Qed.

Lemma typed_during_await_is_discarded_witness :
  let rendered := onFileClick app_js (setIsConnected true initial) in
  let started := setAiResponse None (setIsAiLoading true rendered) in
  handleAiAction_resume Edit rendered app_js (Resolved (js "app.listen(80);"))
                        (onEditorChange (js "typed meanwhile") started)
  = handleAiAction_resume Edit rendered app_js (Resolved (js "app.listen(80);"))
                          started.
Proof.
  intros rendered.
  apply (@typed_during_await_is_discarded Edit rendered app_js
           (js "app.listen(80);") (js "typed meanwhile")); [discriminate|reflexivity].
Defined.

End EditorMore.

Module ChatFacts.
Import App.
Local Open Scope list_scope.



End ChatFacts.

(** * The encode and decode steps inside their handlers *)

Module AudioSteps.
Import Number LiveAudio Base64Facts AudioMore.
Local Open Scope Z_scope.

(** An inbound message whose first part carries an audio payload and no
    text. *)
Definition audio_only (data : jsstring) : LiveServerMessage :=
  {| serverContent := Some {| modelTurn := Some {| Content.parts := Some
       [ {| Part.inlineData := Some {| Blob.data := Some data;
                                       Blob.mimeType := Some (js "audio/pcm") |};
            Part.text := None |} ] |} |} |}.

Lemma onaudioprocess_frame inputData :
  onaudioprocess inputData
  = inr {| media_data := Base64.encode (flat_map bytes_of_int16 (map quantize inputData));
           media_mimeType := js "audio/pcm;rate=16000" |}.
Proof.
  unfold onaudioprocess.
  now rewrite (btoa_bytes (bytes_of_int16_small (map quantize inputData))).
Qed.

Lemma onmessage_plays pcm st :
  pcm <> [] ->
  Forall (fun z => -32768 <= z <= 32767) pcm ->
  onmessage (audio_only (Base64.encode (flat_map bytes_of_int16 pcm))) st
  = ({| liveTranscription := liveTranscription st;
        started := (started st ++ [map (fun z => (z # 32767)%Q) pcm])%list |},
     Resolved tt).
Proof.
  intros Hne Hp. unfold onmessage, audio_only.
  cbn [first_part serverContent modelTurn Content.parts nth_error audio_of text_of
       Part.inlineData Part.text Blob.data playback].
  assert (Ht : JsString.truthy (Base64.encode (flat_map bytes_of_int16 pcm)) = true).
  { destruct pcm as [|z l]; [congruence|].
    cbn [flat_map bytes_of_int16 app]. apply encode_nonempty. }
  rewrite Ht, (atob_encode (bytes_of_int16_small pcm)).
  rewrite (int16_of_bytes_of_int16 Hp).
  destruct pcm as [|z l]; [congruence|]. reflexivity.
Qed.

(** C6: the encode step, inside [onaudioprocess], clamps each sample to
    [[-1, 1]] and scales it by [0x7FFF]: the frame sent is the base64 of the
    16-bit samples so obtained, all of them in [[-32767, 32767]]; for 0.5 and
    -1.0 the frame is [/z8BgA==], the samples 16383 and -32767.  The decode
    step, inside [onmessage], divides each inbound 16-bit sample by
    [0x7FFF]: the buffer it starts for the sample 16383 holds 16383/32767,
    whose binary32 lies between 0.4999 and 0.5. *)
Theorem pcm_quantization :
  (forall inputData,
      exists pcm,
        onaudioprocess inputData
        = inr {| media_data := Base64.encode (flat_map bytes_of_int16 pcm);
                 media_mimeType := js "audio/pcm;rate=16000" |}
        /\ Forall2 (fun x z =>
                      z = ToInt16 (mul (clamp x) (of_Z 32767))
                      /\ match clamp x with
                         | Finite q => (-1 <= q <= 1)%Q
                         | NaN => x = NaN
                         | Infinity _ => False
                         end
                      /\ -32767 <= z <= 32767)
                   inputData pcm)
  /\ (onaudioprocess [Finite (1 # 2); Finite (-1 # 1)]
      = inr {| media_data := js "/z8BgA==";
               media_mimeType := js "audio/pcm;rate=16000" |}
      /\ Base64.atob (js "/z8BgA==") = inr [255; 63; 1; 128]%N
      /\ int16_of_bytes [255; 63; 1; 128]%N = inr [16383; -32767])
  /\ (forall pcm st,
         pcm <> [] ->
         Forall (fun z => -32768 <= z <= 32767) pcm ->
         onmessage (audio_only (Base64.encode (flat_map bytes_of_int16 pcm))) st
         = ({| liveTranscription := liveTranscription st;
               started := (started st ++ [map (fun z => (z # 32767)%Q) pcm])%list |},
            Resolved tt))
  /\ (forall st,
         exists sample,
           onmessage (audio_only (js "/z8=")) st
           = ({| liveTranscription := liveTranscription st;
                 started := (started st ++ [[sample]])%list |},
              Resolved tt)
           /\ sample = (16383 # 32767)%Q
           /\ forall stored,
               rounds_to sample stored ->
               (4999 # 10000 < stored /\ stored < 1 # 2)%Q).
Proof.
  split; [|split; [|split]].
  - intros inputData. exists (map quantize inputData).
    split; [apply onaudioprocess_frame|].
    induction inputData as [|x l IH]; constructor; [|exact IH].
    split; [reflexivity|]. split; [apply AudioFacts.clamp_range|].
    apply AudioFacts.quantize_range.
  - repeat split.
  - intros pcm st. apply onmessage_plays.
  - intros st. exists (16383 # 32767)%Q. split; [|split; [reflexivity|]].
    + apply (@onmessage_plays [16383] st); [discriminate|].
      constructor; [lia|constructor].
    + intros [n d]. unfold rounds_to.
      intros [Lo Hi]%Qabs_Qle_condition.
      unfold Qle, Qlt in *. cbn in *. lia.
Qed.

Lemma pcm_quantization_witness :
  onmessage (audio_only (Base64.encode (flat_map bytes_of_int16 [16383; -32768])))
            {| liveTranscription := []; started := [] |}
  = ({| liveTranscription := [];
        started := [[(16383 # 32767)%Q; (-32768 # 32767)%Q]] |}, Resolved tt)
  /\ (4999 # 10000 < 16383 # 32767 /\ 16383 # 32767 < 1 # 2)%Q.
Proof.
  split.
  - apply (proj1 (proj2 (proj2 pcm_quantization)) [16383; -32768]
                 {| liveTranscription := []; started := [] |}).
    + discriminate.
    + repeat constructor; lia.
  - destruct (proj2 (proj2 (proj2 pcm_quantization))
                    {| liveTranscription := []; started := [] |})
      as (sample & _ & -> & H).
    apply H. unfold rounds_to. vm_compute. discriminate.
Defined.

End AudioSteps.
